(** * ProtSLURM: registry (Poses), reconciler (RunnerOutput) and option merging

    A shallow embedding of [protslurm/poses.py] and [protslurm/runners.py].
    Python strings are [string]s of one-byte characters, a pandas DataFrame
    is a list of column names with a list of rows, a row is a finite map
    from column names to cells (a missing key is a NaN cell), and a Python
    exception is the [Err] result of the [result] type. *)

From Stdlib Require Import Ascii String DecimalString ZArith Lia.
From stdpp Require Import gmap strings list fin_maps.

(** ** Python string methods *)

Module PyStr.

Definition slash : ascii := "/"%char.
Definition dot : ascii := "."%char.
Definition underscore : ascii := "_"%char.

(** [c in s] for a one-character [c]. *)
Fixpoint mem_char (c : ascii) (s : string) : bool :=
  match s with
  | EmptyString => false
  | String a s' => Ascii.eqb a c || mem_char c s'
  end.

(** [s.count(c)]. *)
Fixpoint count_char (c : ascii) (s : string) : nat :=
  match s with
  | EmptyString => 0
  | String a s' => (if Ascii.eqb a c then 1 else 0) + count_char c s'
  end.

(** [s.startswith(c)] and [s.endswith(c)] for a one-character [c]. *)
Definition starts_with_char (c : ascii) (s : string) : bool :=
  match s with
  | EmptyString => false
  | String a _ => Ascii.eqb a c
  end.

Fixpoint ends_with_char (c : ascii) (s : string) : bool :=
  match s with
  | EmptyString => false
  | String a EmptyString => Ascii.eqb a c
  | String _ s' => ends_with_char c s'
  end.

(** [s.split(c)]: every occurrence of [c] ends a token. *)
Fixpoint split_char (c : ascii) (s : string) : list string :=
  match s with
  | EmptyString => [EmptyString]
  | String a s' =>
      if Ascii.eqb a c then EmptyString :: split_char c s'
      else match split_char c s' with
           | t :: ts => String a t :: ts
           | [] => [String a EmptyString]
           end
  end.

(** [sep.join(l)]. *)
Fixpoint join (sep : string) (l : list string) : string :=
  match l with
  | [] => EmptyString
  | [x] => x
  | x :: xs => x +:+ sep +:+ join sep xs
  end.

(** The text before and after the first [c] (the whole string and the empty
    string when [c] does not occur). *)
Fixpoint before_first (c : ascii) (s : string) : string :=
  match s with
  | EmptyString => EmptyString
  | String a s' => if Ascii.eqb a c then EmptyString else String a (before_first c s')
  end.

Fixpoint after_first (c : ascii) (s : string) : string :=
  match s with
  | EmptyString => EmptyString
  | String a s' => if Ascii.eqb a c then s' else after_first c s'
  end.

(** The text before and after the last [c] (the whole string, both times,
    when [c] does not occur). *)
Fixpoint before_last (c : ascii) (s : string) : string :=
  match s with
  | EmptyString => EmptyString
  | String a s' =>
      if mem_char c s' then String a (before_last c s')
      else if Ascii.eqb a c then EmptyString else s
  end.

Fixpoint after_last (c : ascii) (s : string) : string :=
  match s with
  | EmptyString => EmptyString
  | String a s' =>
      if mem_char c s' then after_last c s'
      else if Ascii.eqb a c then s' else s
  end.

(** [s.split(c, maxsplit=1)] and [s.rsplit(c, maxsplit=1)]: two parts when
    [c] occurs, the string alone when it does not. *)
Definition split1 (c : ascii) (s : string) : list string :=
  if mem_char c s then [before_first c s; after_first c s] else [s].

Definition rsplit1 (c : ascii) (s : string) : list string :=
  if mem_char c s then [before_last c s; after_last c s] else [s].

(** [l[0]] and [l[-1]] on the lists above, which are never empty. *)
Definition first_item (l : list string) : string := hd EmptyString l.
Definition last_item (l : list string) : string := List.last l EmptyString.

(** [s.lstrip(..)], [s.rstrip(..)], [s.strip(..)]: the characters taken
    off both ends are those [drop] accepts. *)
Fixpoint lstrip_by (drop : ascii → bool) (s : string) : string :=
  match s with
  | EmptyString => EmptyString
  | String a s' => if drop a then lstrip_by drop s' else s
  end.

Fixpoint rstrip_by (drop : ascii → bool) (s : string) : string :=
  match s with
  | EmptyString => EmptyString
  | String a s' =>
      match rstrip_by drop s' with
      | EmptyString => if drop a then EmptyString else String a EmptyString
      | t => String a t
      end
  end.

Definition strip_by (drop : ascii → bool) (s : string) : string :=
  rstrip_by drop (lstrip_by drop s).

(** [s.lstrip(c)] and [s.strip(c)] for a one-character [c]. *)
Definition lstrip_char (c : ascii) : string → string := lstrip_by (λ a, Ascii.eqb a c).
Definition strip_char (c : ascii) : string → string := strip_by (λ a, Ascii.eqb a c).

(** The characters [str.isspace] accepts among the first 256 code points. *)
Definition is_space (a : ascii) : bool :=
  let n := nat_of_ascii a in
  ((9 <=? n) && (n <=? 13)) || ((28 <=? n) && (n <=? 32)) || (n =? 133) || (n =? 160).

(** [s.strip()]. *)
Definition strip : string → string := strip_by is_space.

(** [s.split()]: the maximal runs of characters that are not spaces. *)
Fixpoint split_ws (s : string) : list string :=
  match s with
  | EmptyString => []
  | String a s' =>
      if is_space a then split_ws s'
      else match s' with
           | EmptyString => [String a EmptyString]
           | String b _ =>
               if is_space b then String a EmptyString :: split_ws s'
               else match split_ws s' with
                    | t :: ts => String a t :: ts
                    | [] => [String a EmptyString]
                    end
           end
  end.

(** [s] without the prefix [pre], when it has it. *)
Fixpoint drop_prefix (pre s : string) : option string :=
  match pre, s with
  | EmptyString, _ => Some s
  | String a pre', String b s' => if Ascii.eqb a b then drop_prefix pre' s' else None
  | String _ _, EmptyString => None
  end.

(** [s.split(sep)] for a separator of any length, read from the left; the
    fuel bounds the number of characters still to read. *)
Fixpoint split_go (fuel : nat) (sep s : string) : list string :=
  match fuel with
  | 0 => [EmptyString]
  | S fuel' =>
      match s with
      | EmptyString => [EmptyString]
      | String a s' =>
          match drop_prefix sep s with
          | Some rest => EmptyString :: split_go fuel' sep rest
          | None =>
              match split_go fuel' sep s' with
              | t :: ts => String a t :: ts
              | [] => [String a EmptyString]
              end
          end
      end
  end.

(** [str(n)] and [s.zfill(width)] (no sign to keep in front). *)
Definition str_of_nat (n : nat) : string := NilZero.string_of_uint (Nat.to_uint n).

Fixpoint zeros (n : nat) : string :=
  match n with
  | 0 => EmptyString
  | S n' => String "0" (zeros n')
  end.

Definition zfill (width : nat) (s : string) : string :=
  zeros (width - String.length s) +:+ s.

(** [os.path.basename(p)]: what follows the last slash. *)
Definition basename (p : string) : string := after_last slash p.

(** [p] without its base name, the last slash included. *)
Fixpoint dirpart (p : string) : string :=
  match p with
  | EmptyString => EmptyString
  | String a p' =>
      if Ascii.eqb a slash || mem_char slash p' then String a (dirpart p')
      else EmptyString
  end.

(** [os.path.splitext] on one path component: the extension starts at the
    last dot, unless that dot belongs to the leading dots of the name. *)
Definition splitext_name (b : string) : string * string :=
  if mem_char dot (lstrip_char dot b)
  then (before_last dot b, String dot (after_last dot b))
  else (b, EmptyString).

(** [os.path.splitext(p)]: only the last component is split. *)
Definition splitext (p : string) : string * string :=
  let '(root, ext) := splitext_name (basename p) in (dirpart p +:+ root, ext).

End PyStr.

Import PyStr.

(** ** Descriptions

    [Poses.parse_descriptions], one pose:
    [pose.strip("/").rsplit("/", maxsplit=1)[-1].split(".", maxsplit=1)[0]]. *)
Definition parse_description (pose : string) : string :=
  first_item (split1 dot (last_item (rsplit1 slash (strip_char slash pose)))).

Definition parse_descriptions (poses : list string) : list string :=
  map parse_description poses.

(** [extract_description] of [RunnerOutput.check_data_formatting]:
    [os.path.splitext(os.path.basename(path))[0]]. *)
Definition extract_description (path : string) : string :=
  fst (splitext (basename path)).

(** ** Exceptions, results and the state of a call *)

(** The exceptions the modelled code raises.  The [ValueError]s of
    [runners.py], which a caller tells apart by their message, are separate
    constructors. *)
Inductive exn : Type :=
  | SchemaMissingColumns          (* ValueError: MUST contain columns 'description' and 'location' *)
  | SchemaMismatch                (* ValueError: 'description' column does not match 'location' *)
  | NoOverlap                     (* ValueError: no overlap found between poses_description and results *)
  | PipelineDrop                  (* ValueError: some rows in results were not found in poses_description *)
  | OptionsLength                 (* ValueError: poses and pose_options must be of the same length *)
  | ValueError (msg : string)
  | KeyError (key : string)
  | TypeError (msg : string)
  | AttributeError (attr : string)
  | FileNotFoundError (msg : string)
  | SameFileError (path : string).

#[export] Instance exn_eq_dec : EqDecision exn.
Proof. solve_decision. Defined.

Inductive result (A : Type) : Type :=
  | Ok (a : A)
  | Err (e : exn).
Arguments Ok {A} a.
Arguments Err {A} e.

#[export] Instance result_ret : MRet result := @Ok.
#[export] Instance result_bind : MBind result := λ A B f r,
  match r with Ok a => f a | Err e => Err e end.

Definition is_Ok {A} (r : result A) : Prop := ∃ a, r = Ok a.
Definition is_Err {A} (r : result A) : Prop := ∃ e, r = Err e.

(** A method call on an object of state [S]: it returns or raises, and in
    both cases leaves a state behind (what was assigned before a [raise]
    stays assigned). *)
Record M (S A : Type) : Type := mkM { run : S → result A * S }.
Arguments mkM {S A} run.
Arguments run {S A} m s.

Definition bind {S A B} (m : M S A) (f : A → M S B) : M S B :=
  mkM (λ s, match run m s with
            | (Ok a, s') => run (f a) s'
            | (Err e, s') => (Err e, s')
            end).

Notation "'let*' x := c 'in' k" := (bind c (λ x, k))
  (at level 10, x name, c at level 100, k at level 200).
Notation "'do' c 'then' k" := (bind c (λ _, k))
  (at level 10, c at level 100, k at level 200).

Definition ret {S A} (a : A) : M S A := mkM (λ s, (Ok a, s)).
Definition raise {S A} (e : exn) : M S A := mkM (λ s, (Err e, s)).
Definition get {S} : M S S := mkM (λ s, (Ok s, s)).
Definition put {S} (s : S) : M S unit := mkM (λ _, (Ok tt, s)).
Definition lift {S A} (r : result A) : M S A := mkM (λ s, (r, s)).

(** ** pandas DataFrames *)

(** A cell is a string; [None] is a missing value (NaN). *)
Record DataFrame : Type := mkDF {
  columns : list string;
  rows : list (gmap string string)
}.

Definition Series : Type := list (option string).

Module pd.

(** [len(df)]. *)
Definition len (d : DataFrame) : nat := length (rows d).

(** [col in df.columns]. *)
Definition has_col (d : DataFrame) (c : string) : bool :=
  bool_decide (c ∈ columns d).

(** [df[c]]. *)
Definition getitem (d : DataFrame) (c : string) : result Series :=
  if has_col d c then Ok (map (λ r : gmap string string, r !! c) (rows d))
  else Err (KeyError c).

Definition set_cell (c : string) (r : gmap string string) (v : option string)
  : gmap string string :=
  match v with
  | Some x => <[c := x]> r
  | None => delete c r
  end.

(** [df[c] = values], for [values] of the length of [df]: a new column goes
    last. *)
Definition setitem (d : DataFrame) (c : string) (values : Series) : DataFrame :=
  {| columns := if has_col d c then columns d else columns d ++ [c];
     rows := zip_with (set_cell c) (rows d) values |}.

(** [df.drop(c, axis=1)]. *)
Definition drop (d : DataFrame) (c : string) : result DataFrame :=
  if has_col d c
  then Ok {| columns := filter (λ x, x ≠ c) (columns d);
             rows := map (delete c) (rows d) |}
  else Err (KeyError c).

(** [df.rename(columns=f)]. *)
Definition rename (f : string → string) (d : DataFrame) : DataFrame :=
  {| columns := map f (columns d); rows := map (kmap f) (rows d) |}.

(** [df.add_prefix(p)]. *)
Definition add_prefix (p : string) (d : DataFrame) : DataFrame :=
  rename (String.append p) d.

(** [pd.concat([d1, d2])]: the rows of both, over the union of the columns. *)
Definition concat (d1 d2 : DataFrame) : DataFrame :=
  {| columns := columns d1 ++ filter (λ c, c ∉ columns d1) (columns d2);
     rows := rows d1 ++ rows d2 |}.

(** The pairs of rows an inner join keeps, in the order of the left frame.
    pandas matches a missing key with a missing key. *)
Definition join_rows (left_on right_on : string) (L R : list (gmap string string))
  : list (gmap string string * gmap string string) :=
  l ← L;
  r ← R;
  if decide (l !! left_on = r !! right_on) then [(l, r)] else [].

Definition join_pairs (left right : DataFrame) (left_on right_on : string)
  : list (gmap string string * gmap string string) :=
  join_rows left_on right_on (rows left) (rows right).

(** pandas renames a column that both frames have: suffix [_x] on the left,
    [_y] on the right. *)
Definition suffixed (sfx : string) (overlap : list string) (c : string) : string :=
  if bool_decide (c ∈ overlap) then c +:+ sfx else c.

(** [left.merge(right, left_on=.., right_on=..)], an inner join on two
    differently named key columns. *)
Definition merge (left right : DataFrame) (left_on right_on : string)
  : result DataFrame :=
  if negb (has_col left left_on) then Err (KeyError left_on)
  else if negb (has_col right right_on) then Err (KeyError right_on)
  else
    let overlap := filter (λ c, c ∈ columns right) (columns left) in
    let fl := suffixed "_x" overlap in
    let fr := suffixed "_y" overlap in
    Ok {| columns := map fl (columns left) ++ map fr (columns right);
          rows := map (λ lr, kmap fl lr.1 ∪ kmap fr lr.2)
                      (join_pairs left right left_on right_on) |}.

End pd.

(** ** poses.py *)

(** The [Poses] object; only its table matters here. *)
Record Poses : Type := mkPoses { df : DataFrame }.

(** What the methods of [Poses] see and change: the object and the file
    system.  [glob] is [glob.glob]; [split_fasta] is what lines 181-186 of
    [set_poses] make of a list of inputs that names a [.fa] file, which
    depends on the content of the files. *)
Record World : Type := mkWorld {
  self : Poses;
  files : gset string;
  dirs : gset string;
  glob : string → list string;
  split_fasta : list string → result (list string)
}.

Definition set_self (p : Poses) (w : World) : World :=
  {| self := p; files := files w; dirs := dirs w; glob := glob w;
     split_fasta := split_fasta w |}.

Definition set_files (f : gset string) (w : World) : World :=
  {| self := self w; files := f; dirs := dirs w; glob := glob w;
     split_fasta := split_fasta w |}.

Definition set_dirs (d : gset string) (w : World) : World :=
  {| self := self w; files := files w; dirs := d; glob := glob w;
     split_fasta := split_fasta w |}.

(** [self.df = d]. *)
Definition assign_df (d : DataFrame) : M World unit :=
  mkM (λ w, (Ok tt, set_self (mkPoses d) w)).

Definition isfile (path : string) : M World bool :=
  mkM (λ w, (Ok (bool_decide (path ∈ files w)), w)).

Definition isdir (path : string) : M World bool :=
  mkM (λ w, (Ok (bool_decide (path ∈ dirs w)), w)).

(** [os.makedirs(path)]. *)
Definition makedirs (path : string) : M World unit :=
  mkM (λ w, (Ok tt, set_dirs ({[path]} ∪ dirs w) w)).

(** [shutil.copy(src, dst)]. *)
Definition shutil_copy (src dst : string) : M World unit :=
  mkM (λ w,
    if negb (bool_decide (src ∈ files w)) then (Err (FileNotFoundError src), w)
    else if bool_decide (src = dst) then (Err (SameFileError src), w)
    else (Ok tt, set_files ({[dst]} ∪ files w) w)).

(** [for x in l: body(x)]. *)
Fixpoint for_each {S A} (l : list A) (body : A → M S unit) : M S unit :=
  match l with
  | [] => ret tt
  | x :: l' => do body x then for_each l' body
  end.

(** [if cond: raise e]. *)
Definition raise_if {S} (cond : bool) (e : exn) : M S unit :=
  if cond then raise e else ret tt.

(** [all(isfile(p) for p in l)]. *)
Definition all_isfile (l : list string) : M World bool :=
  mkM (λ w, (Ok (forallb (λ p, bool_decide (p ∈ files w)) l), w)).

(** A method of a string called on a cell: a missing cell is a float. *)
Definition str_of_cell (v : option string) : result string :=
  match v with
  | Some s => Ok s
  | None => Err (AttributeError "float")
  end.

(** [os.path.join(a, b)]. *)
Definition os_path_join (a b : string) : string :=
  if starts_with_char slash b then b
  else if bool_decide (a = EmptyString) || ends_with_char slash a then a +:+ b
  else a +:+ "/" +:+ b.

(** [s.endswith(suffix)]. *)
Fixpoint endswith (suffix s : string) : bool :=
  String.eqb s suffix ||
  match s with
  | EmptyString => false
  | String _ s' => endswith suffix s'
  end.

(** [Poses.poses_list]. *)
Definition poses_list (p : Poses) : result Series := pd.getitem (df p) "poses".

(** [len(poses)]. *)
Definition Poses_len (p : Poses) : nat := pd.len (df p).

(** [Poses.check_poses_df_integrity]. *)
Definition check_poses_df_integrity (d : DataFrame) : result DataFrame :=
  match filter (λ c, c ∉ columns d) ["input_poses"; "poses"; "poses_description"] with
  | [] => Ok d
  | c :: _ => Err (KeyError c)
  end.

(** The [poses] argument of [Poses.set_poses]. *)
Inductive PosesInput : Type :=
  | InStr (s : string)
  | InList (l : list string)
  | InNone
  | InFrame (d : DataFrame)
  | InOther.

(** [Poses.parse_poses]. *)
Definition parse_poses (poses : PosesInput) (glob_suffix : option string)
  : M World (list string) :=
  let globbing := match glob_suffix with
                  | Some g => negb (String.eqb g EmptyString)
                  | None => false
                  end in
  match poses with
  | InStr s =>
      if globbing then
        let* w := get in
        match glob w (s +:+ "/" +:+ default EmptyString glob_suffix) with
        | [] => raise (FileNotFoundError s)
        | parsed_poses => ret parsed_poses
        end
      else
        let* ok := isfile s in
        if ok then ret [s] else raise (FileNotFoundError s)
  | InList l =>
      let* ok := all_isfile l in
      if ok then ret l else raise (FileNotFoundError "poses")
  | InNone => ret []
  | _ => raise (TypeError "parse_poses")
  end.

(** [pd.DataFrame({"input_poses": poses, "poses": poses,
    "poses_description": self.parse_descriptions(poses)})]. *)
Definition poses_frame (poses : list string) : DataFrame :=
  {| columns := ["input_poses"; "poses"; "poses_description"];
     rows := map (λ ps : string * string,
                    <["input_poses" := ps.1]>
                      (<["poses" := ps.1]>
                         (<["poses_description" := ps.2]> (∅ : gmap string string))))
                 (zip poses (parse_descriptions poses)) |}.

(** [Poses.set_poses]. *)
Definition set_poses (poses : PosesInput) (glob_suffix : option string)
  : M World unit :=
  match poses with
  | InFrame d => let* d' := lift (check_poses_df_integrity d) in assign_df d'
  | _ =>
      let* parsed := parse_poses poses glob_suffix in
      let* parsed := (if existsb (endswith ".fa") parsed
                      then let* w := get in lift (split_fasta w parsed)
                      else ret parsed) in
      assign_df (poses_frame parsed)
  end.

(** [Poses.change_poses_dir]. *)
Definition change_poses_dir (poses_dir : string) (copy overwrite : bool)
  : M World unit :=
  let* w := get in
  let* old_poses := lift (poses_list (self w)) in
  let* old_poses := lift (mapM str_of_cell old_poses) in
  let new_poses :=
    map (λ pose, os_path_join poses_dir (last_item (rsplit1 slash pose))) old_poses in
  do (if negb copy then
        let* d := isdir poses_dir in
        do raise_if (negb d) (ValueError ":work_dir: has to be existing directory!") then
        let* ok := all_isfile new_poses in
        raise_if (negb ok) (ValueError "Poses do not exist at specified directory.")
      else
        let* d := isdir poses_dir in
        do (if negb d then makedirs poses_dir else ret tt) then
        if overwrite then
          for_each (zip old_poses new_poses) (λ on, shutil_copy on.1 on.2)
        else
          for_each (zip old_poses new_poses) (λ on,
            let* present := isfile on.2 in
            if negb present then shutil_copy on.1 on.2 else ret tt)) then
  let* w := get in
  assign_df (pd.setitem (df (self w)) "poses" (map Some new_poses)).

(** [a, b = l]. *)
Definition unpack2 (l : list string) : result (string * string) :=
  match l with
  | [a; b] => Ok (a, b)
  | _ => Err (ValueError "unpack")
  end.

(** [insert_index_layer] of [Poses.duplicate_poses]. *)
Definition insert_index_layer (pose : string) (n : nat) (sep : string) : result string :=
  '(filepath, filename) ← unpack2 (rsplit1 slash pose);
  '(description, ext) ← unpack2 (rsplit1 dot filename);
  Ok (filepath +:+ "/" +:+ description +:+ sep +:+ zfill 4 (str_of_nat n) +:+ "." +:+ ext).

(** [pd.DataFrame(output_dict)] of [Poses.duplicate_poses]. *)
Definition output_frame (output_files : list string) : DataFrame :=
  {| columns := ["temp_dp_select_col"; "temp_dp_description"; "temp_dp_location"];
     rows := map (λ file_path : string,
                    <["temp_dp_select_col" :=
                        first_item (rsplit1 underscore (last_item (rsplit1 slash file_path)))]>
                      (<["temp_dp_description" :=
                           first_item (rsplit1 dot (last_item (rsplit1 slash file_path)))]>
                         (<["temp_dp_location" := file_path]> (∅ : gmap string string))))
                 output_files |}.

(** [pose[c]] for a row [pose] that [Poses.__iter__] yields. *)
Definition row_getitem (d : DataFrame) (pose : gmap string string) (c : string)
  : result string :=
  if pd.has_col d c
  then match pose !! c with
       | Some v => Ok v
       | None => Err (TypeError "float")
       end
  else Err (KeyError c).

(** [Poses.duplicate_poses].  The frame that [self.df.merge(..)] returns is
    not assigned to anything. *)
Definition duplicate_poses (output_dir : string) (n_duplicates : nat) : M World unit :=
  let* w := get in
  let* poses := lift (poses_list (self w)) in
  let* output_files :=
    lift (mapM (λ pn : option string * nat,
                  pose ← str_of_cell pn.1;
                  layered ← insert_index_layer pose pn.2 "_";
                  Ok (output_dir +:+ "/" +:+ layered))
               (pose ← poses; n ← seq 0 n_duplicates; [(pose, n)])) in
  do lift (pd.merge (df (self w)) (output_frame output_files)
             "poses_description" "temp_dp_select_col") then
  let* dropped := lift (pd.drop (df (self w)) "temp_dp_select_col") in
  do assign_df dropped then
  do for_each (rows dropped) (λ pose,
       let* dst := lift (row_getitem dropped pose "temp_dp_location") in
       let* present := isfile dst in
       if negb present then
         let* src := lift (row_getitem dropped pose "pose") in
         shutil_copy src dst
       else ret tt) then
  let* w := get in
  let* location := lift (pd.getitem (df (self w)) "temp_dp_location") in
  do assign_df (pd.setitem (df (self w)) "poses" location) then
  let* w := get in
  let* description := lift (pd.getitem (df (self w)) "description") in
  assign_df (pd.setitem (df (self w)) "poses_description" description).

(** ** runners.py *)

(** [RunnerOutput]: its [poses] attribute is the [Poses] object on which
    [return_poses] runs. *)
Record RunnerOutput : Type := mkRunnerOutput {
  results : DataFrame;
  prefix : string
}.

(** [a == b] on two columns: a missing cell equals nothing. *)
Definition series_eq (a b : Series) : list bool :=
  zip_with (λ x y : option string,
              match x, y with
              | Some u, Some v => String.eqb u v
              | _, _ => false
              end) a b.

(** [results['location'].apply(extract_description)]. *)
Definition apply_extract_description (locations : Series) : result Series :=
  mapM (λ v : option string,
          match v with
          | Some path => Ok (Some (extract_description path))
          | None => Err (TypeError "float")
          end) locations.

(** [RunnerOutput.check_data_formatting]. *)
Definition check_data_formatting (results : DataFrame) : result DataFrame :=
  if existsb (λ col, negb (pd.has_col results col)) ["description"; "location"]
  then Err SchemaMissingColumns
  else
    description ← pd.getitem results "description";
    location ← pd.getitem results "location";
    extracted ← apply_extract_description location;
    if negb (forallb id (series_eq description extracted)) then Err SchemaMismatch
    else Ok results.

(** [l[:stop]]. *)
Definition slice_to {A} (stop : Z) (l : list A) : list A :=
  if (stop <? 0)%Z then take (length l - Z.to_nat (- stop)) l
  else take (Z.to_nat stop) l.

(** [description.split(index_sep)[:-1*index_layers]] joined by [index_sep],
    for a separator of one character (pandas reads a longer one as a
    regular expression). *)
Definition remove_layers (index_layers : Z) (index_sep : ascii) (description : string)
  : string :=
  join (String index_sep EmptyString)
       (slice_to (-1 * index_layers) (split_char index_sep description)).

(** [RunnerOutput.__init__]. *)
Definition RunnerOutput_init (results : DataFrame) (prefix : string)
    (index_layers : Z) (index_sep : ascii) : result RunnerOutput :=
  results ← check_data_formatting results;
  description ← pd.getitem results "description";
  let select_col :=
    if bool_decide (index_layers ≠ 0%Z)
    then map (fmap (remove_layers index_layers index_sep)) description
    else description in
  let results := pd.setitem results "select_col" select_col in
  Ok {| results := pd.add_prefix (prefix +:+ "_") results; prefix := prefix |}.

(** [RunnerOutput.return_poses], a method call on [self.poses]. *)
Definition return_poses (ro : RunnerOutput) : M Poses unit :=
  let startlen := pd.len (results ro) in
  let* poses := get in
  let* current := lift (poses_list poses) in
  let* merged_df :=
    (if bool_decide (length current = 0)
     then ret (pd.concat (df poses) (results ro))
     else lift (pd.merge (df poses) (results ro)
                  "poses_description" (prefix ro +:+ "_select_col"))) in
  let* merged_df := lift (pd.drop merged_df (prefix ro +:+ "_select_col")) in
  do raise_if (bool_decide (pd.len merged_df = 0)) NoOverlap then
  do raise_if (bool_decide (pd.len merged_df < startlen)) PipelineDrop then
  let* location := lift (pd.getitem merged_df (prefix ro +:+ "_location")) in
  let merged_df := pd.setitem merged_df "poses" location in
  let* description := lift (pd.getitem merged_df (prefix ro +:+ "_description")) in
  let merged_df := pd.setitem merged_df "poses_description" description in
  put (mkPoses merged_df).

(** [col_in_df]. *)
Definition col_in_df (d : DataFrame) (column : string) : result unit :=
  if negb (pd.has_col d column) then Err (KeyError column) else Ok tt.

(** [Runner.check_for_prefix]. *)
Definition check_for_prefix (prefix : string) (poses : Poses) : result unit :=
  if pd.has_col (df poses) prefix then Err (KeyError prefix) else Ok tt.

(** The [pose_options] argument of [Runner.prep_pose_options]. *)
Inductive PoseOptions : Type :=
  | OptionsColumn (column : string)
  | OptionsList (l : list (option string))
  | OptionsNone.

(** [series.poses_list()]: a pandas Series has no such method. *)
Definition Series_poses_list (s : Series) : result (list (option string)) :=
  Err (AttributeError "poses_list").

(** [Runner.prep_pose_options]. *)
Definition prep_pose_options (poses : Poses) (pose_options : PoseOptions)
  : result (list (option string)) :=
  pose_options ←
    match pose_options with
    | OptionsColumn column =>
        col_in_df (df poses) column;;
        series ← pd.getitem (df poses) column;
        Series_poses_list series
    | OptionsList l => Ok l
    | OptionsNone => Ok (map (λ _, None) (rows (df poses)))
    end;
  if bool_decide (Poses_len poses ≠ length pose_options) && bool_decide (Poses_len poses ≠ 0)
  then Err OptionsLength
  else Ok pose_options.

(** [options_str.split(sep)]. *)
Definition str_split (sep s : string) : result (list string) :=
  if String.eqb sep EmptyString then Err (ValueError "empty separator")
  else Ok (split_go (String.length s) sep s).

(** One round of the loop of [expand_options_flags]. *)
Definition expand_item (acc : gmap string string * list string) (item : string)
  : gmap string string * list string :=
  let x := split_ws item in
  if bool_decide (1 < length x)
  then (<[first_item x := join " " (tail x)]> acc.1, acc.2)
  else
    let x := split_char "=" item in
    if bool_decide (1 < length x)
    then (<[first_item x := join "=" (tail x)]> acc.1, acc.2)
    else (acc.1, acc.2 ++ [first_item x]).

(** [expand_options_flags]; the option string may be [None]. *)
Definition expand_options_flags (options_str : option string) (sep : string)
  : result (gmap string string * gset string) :=
  match options_str with
  | None => Ok (∅, ∅)
  | Some EmptyString => Ok (∅, ∅)
  | Some options_str =>
      parts ← str_split sep options_str;
      let firstsplit :=
        map strip (filter (λ x, x ≠ EmptyString) parts) in
      let '(opts, flags) := foldl expand_item (∅, []) firstsplit in
      Ok (opts, list_to_set flags)
  end.

(** [d.update(other)]: every key of [other] takes the value [other] has. *)
Definition dict_update (d other : gmap string string) : gmap string string :=
  other ∪ d.

(** [parse_generic_options]; the list of flags it returns is built from a
    set, so it is a set here. *)
Definition parse_generic_options (options pose_options : option string) (sep : string)
  : result (gmap string string * gset string) :=
  '(opts, flags) ← expand_options_flags options sep;
  '(pose_opts, pose_flags) ← expand_options_flags pose_options sep;
  Ok (dict_update opts pose_opts, flags ∪ pose_flags).

(** ** Properties of tables, stated for the claims *)

(** A row passes when it has a location and its description is the base
    name of that location without its extension. *)
Definition row_matches (r : gmap string string) : Prop :=
  ∃ l, r !! "location" = Some l ∧ r !! "description" = Some (extract_description l).

Definition row_matchesb (r : gmap string string) : bool :=
  match r !! "description", r !! "location" with
  | Some d, Some l => String.eqb d (extract_description l)
  | _, _ => false
  end.

(** The contract on a raw result table. *)
Definition valid_table (res : DataFrame) : Prop :=
  "description" ∈ columns res ∧ "location" ∈ columns res ∧
  Forall row_matches (rows res).


(** The join key [RunnerOutput.__init__] computes for a row. *)
Definition select_key (index_layers : Z) (index_sep : ascii) (r : gmap string string)
  : option string :=
  if bool_decide (index_layers ≠ 0%Z)
  then remove_layers index_layers index_sep <$> r !! "description"
  else r !! "description".

(** The row of [self.results] that a row of the raw table becomes. *)
Definition prefixed_row (prefix : string) (index_layers : Z) (index_sep : ascii)
    (r : gmap string string) : gmap string string :=
  kmap (String.append (prefix +:+ "_"))
       (pd.set_cell "select_col" r (select_key index_layers index_sep r)).

(** A list without its last [n] items. *)
Definition without_last {A} (n : nat) (l : list A) : list A :=
  reverse (drop n (reverse l)).


(** ** Tables used as examples *)

(** A raw result row with a description and a location. *)
Definition result_row (description location : string) : gmap string string :=
  <["description" := description]> (<["location" := location]> ∅).

(** A registry row. *)
Definition registry_row (input pose description : string) : gmap string string :=
  <["input_poses" := input]>
    (<["poses" := pose]> (<["poses_description" := description]> ∅)).

(** The output of a stage that made two designs of [a] and one of [b]. *)
Definition fanout_results : DataFrame :=
  mkDF ["description"; "location"]
       [result_row "a_0001" "out/a_0001.pdb";
        result_row "a_0002" "out/a_0002.pdb";
        result_row "b_0001" "out/b_0001.pdb"].

(** The output of a stage that only returned [a]. *)
Definition partial_results : DataFrame :=
  mkDF ["description"; "location"] [result_row "a" "out/a.pdb"].

(** A result table with its two columns and no row. *)
Definition empty_results : DataFrame := mkDF ["description"; "location"] [].

(** The registry of [in/a.pdb] and [in/b.pdb], and the empty registry. *)
Definition two_poses : Poses := mkPoses (poses_frame ["in/a.pdb"; "in/b.pdb"]%string).
Definition no_poses : Poses := mkPoses (poses_frame []).

(** A file system that holds [in/a.pdb] and [in/b.pdb]. *)
Definition two_files (p : Poses) : World :=
  {| self := p; files := {["in/a.pdb"; "in/b.pdb"]}%string; dirs := {["in"%string]};
     glob := λ _, []; split_fasta := λ l, Ok l |}.


(** ** Notions used to state the claims on [return_poses] *)

(** A registry row and a row of [self.results] have the same join key. *)
Definition joins (prefix : string) (l r : gmap string string) : Prop :=
  l !! "poses_description" = r !! (prefix +:+ "_select_col").

(** The rows [return_poses] joins. *)
Definition joined (p : Poses) (ro : RunnerOutput)
  : list (gmap string string * gmap string string) :=
  pd.join_pairs (df p) (results ro) "poses_description" (prefix ro +:+ "_select_col").

(** No column of the registry table has the name of a column of the
    prefixed result table. *)
Definition no_clash (d : DataFrame) (ro : RunnerOutput) : Prop :=
  ∀ c, c ∈ columns d → c ∉ columns (results ro).

(** The cells of a table are in its columns. *)
Definition rows_within (d : DataFrame) : Prop :=
  ∀ r c, r ∈ rows d → is_Some (r !! c) → c ∈ columns d.

(** The values of [poses_description] are pairwise distinct. *)
Definition distinct_descriptions (d : DataFrame) : Prop :=
  "poses_description" ∈ columns d ∧
  NoDup (map (λ r : gmap string string, r !! "poses_description") (rows d)).

(** Lines 59-71 of [return_poses] as a function of the merged frame: the
    cleanup, the two checks and the reset of the two columns. *)
Definition after_merger (prefix : string) (startlen : nat) (merged_df : DataFrame)
  : result DataFrame :=
  merged_df ← pd.drop merged_df (prefix +:+ "_select_col");
  if bool_decide (pd.len merged_df = 0) then Err NoOverlap
  else if bool_decide (pd.len merged_df < startlen) then Err PipelineDrop
  else
    location ← pd.getitem merged_df (prefix +:+ "_location");
    let merged_df := pd.setitem merged_df "poses" location in
    description ← pd.getitem merged_df (prefix +:+ "_description");
    Ok (pd.setitem merged_df "poses_description" description).

(** Lines 50-57 of [return_poses]: the frame that is cleaned up. *)
Definition merger (ro : RunnerOutput) (p : Poses) : result DataFrame :=
  current ← poses_list p;
  if bool_decide (length current = 0)
  then Ok (pd.concat (df p) (results ro))
  else pd.merge (df p) (results ro) "poses_description" (prefix ro +:+ "_select_col").

(** What lines 60-71 make of a merged row. *)
Definition reset_row (prefix : string) (r : gmap string string) : gmap string string :=
  let r0 := delete (prefix +:+ "_select_col") r in
  let r1 := pd.set_cell "poses" r0 (r0 !! (prefix +:+ "_location")) in
  pd.set_cell "poses_description" r1 (r1 !! (prefix +:+ "_description")).


(** ** Registry states reached from distinct inputs

    The registry after [set_poses] and after any number of calls of
    [return_poses] and [change_poses_dir], whether they return or raise,
    when what goes in has pairwise distinct descriptions: the paths the
    table is created from, the table that is loaded, and every result table
    that is merged (whose prefixed columns are new to the registry). *)
Inductive reachable : Poses → Prop :=
  | reach_set_poses_paths (w w' : World) (input : PosesInput)
      (glob_suffix : option string) (paths : list string) :
      run (set_poses input glob_suffix) w = (Ok tt, w') →
      df (self w') = poses_frame paths →
      NoDup (parse_descriptions paths) →
      reachable (self w')
  | reach_set_poses_frame (w w' : World) (d : DataFrame) (glob_suffix : option string) :
      run (set_poses (InFrame d) glob_suffix) w = (Ok tt, w') →
      rows_within d →
      NoDup (map (λ r : gmap string string, r !! "poses_description") (rows d)) →
      reachable (self w')
  | reach_return_poses (p p' : Poses) (res : DataFrame) (prefix : string)
      (index_layers : Z) (index_sep : ascii) (ro : RunnerOutput) (outcome : result unit) :
      reachable p →
      RunnerOutput_init res prefix index_layers index_sep = Ok ro →
      rows_within res →
      NoDup (map (λ r : gmap string string, r !! "description") (rows res)) →
      no_clash (df p) ro →
      run (return_poses ro) p = (outcome, p') →
      reachable p'
  | reach_change_poses_dir (w w' : World) (poses_dir : string) (copy overwrite : bool)
      (outcome : result unit) :
      reachable (self w) →
      run (change_poses_dir poses_dir copy overwrite) w = (outcome, w') →
      reachable (self w').

(** What holds of every such registry. *)
Definition registry_invariant (p : Poses) : Prop :=
  "poses" ∈ columns (df p) ∧ rows_within (df p) ∧ distinct_descriptions (df p).


(** A call that leaves the [Poses] object as it is. *)
Definition keeps_self {A} (m : M World A) : Prop :=
  ∀ w outcome w', run m w = (outcome, w') → self w' = self w.

(** * Proofs *)

(** ** Strings *)

Example parse_description_pdb : parse_description "dir/pose_0001.pdb" = "pose_0001"%string.
Proof. reflexivity. Qed.
Example extract_description_pdb : extract_description "dir/pose_0001.pdb" = "pose_0001"%string.
Proof. reflexivity. Qed.
Example splitext_hidden : splitext "a/.bashrc" = ("a/.bashrc", "")%string.
Proof. reflexivity. Qed.
Example splitext_two : splitext "a.d/.b.c" = ("a.d/.b", ".c")%string.
Proof. reflexivity. Qed.
Example split_char_ex : split_char underscore "a__b_" = ["a"; ""; "b"; ""]%string.
Proof. reflexivity. Qed.
Example strip_ex : strip_char slash "//a/b//" = "a/b"%string.
Proof. reflexivity. Qed.

Section string_facts.
Variable c : ascii.

Lemma count_char_mem s : count_char c s = 0 ↔ mem_char c s = false.
Proof.
  induction s as [|a s IH]; simpl; [done|].
  destruct (Ascii.eqb a c); simpl; [split; [lia | done] | exact IH].
Qed.

Lemma after_last_no_mem s : mem_char c s = false → after_last c s = s.
Proof.
  destruct s as [|a s]; simpl; [done|].
  intros [Ha Hs]%orb_false_elim. by rewrite Hs, Ha.
Qed.

Lemma before_last_no_mem s : mem_char c s = false → before_last c s = s.
Proof.
  destruct s as [|a s]; simpl; [done|].
  intros [Ha Hs]%orb_false_elim. by rewrite Hs, Ha.
Qed.

Lemma before_first_no_mem s : mem_char c s = false → before_first c s = s.
Proof.
  induction s as [|a s IH]; simpl; [done|].
  intros [Ha Hs]%orb_false_elim. rewrite Ha. by rewrite IH.
Qed.

Lemma mem_after_last s : mem_char c (after_last c s) = false.
Proof.
  induction s as [|a s IH]; simpl; [done|].
  destruct (mem_char c s) eqn:Hs; [done|].
  destruct (Ascii.eqb a c) eqn:Ha; [done|]. simpl. by rewrite Ha, Hs.
Qed.

Lemma last_item_rsplit1 s : last_item (rsplit1 c s) = after_last c s.
Proof.
  unfold rsplit1, last_item. destruct (mem_char c s) eqn:Hs; simpl; [done|].
  by rewrite after_last_no_mem.
Qed.

Lemma first_item_split1 s : first_item (split1 c s) = before_first c s.
Proof.
  unfold split1, first_item. destruct (mem_char c s) eqn:Hs; simpl; [done|].
  by rewrite before_first_no_mem.
Qed.

Lemma before_last_single s :
  count_char c s ≤ 1 → before_last c s = before_first c s.
Proof.
  induction s as [|a s IH]; simpl; [done|].
  destruct (Ascii.eqb a c) eqn:Ha; simpl; intros Hn.
  - assert (mem_char c s = false) as -> by (apply count_char_mem; lia). done.
  - destruct (mem_char c s) eqn:Hs.
    + by rewrite IH.
    + by rewrite before_first_no_mem.
Qed.

Lemma rstrip_no_trailing s :
  ends_with_char c s = false → rstrip_by (λ a, Ascii.eqb a c) s = s.
Proof.
  induction s as [|a s IH]; [done|].
  destruct s as [|b s].
  - simpl. by intros ->.
  - intros Hs. change (ends_with_char c (String b s) = false) in Hs.
    specialize (IH Hs).
    change (rstrip_by (λ a0, Ascii.eqb a0 c) (String a (String b s)))
      with (match rstrip_by (λ a0, Ascii.eqb a0 c) (String b s) with
            | EmptyString => if Ascii.eqb a c then EmptyString else String a EmptyString
            | t => String a t
            end).
    by rewrite IH.
Qed.

Lemma lstrip_keeps_end s :
  ends_with_char c s = false → ends_with_char c (lstrip_char c s) = false.
Proof.
  unfold lstrip_char.
  induction s as [|a s IH]; [done|].
  intros Hs. simpl. destruct (Ascii.eqb a c) eqn:Ha; [|done].
  apply IH. destruct s; [simpl in Hs; congruence | exact Hs].
Qed.

Lemma after_last_lstrip s :
  ends_with_char c s = false → after_last c (lstrip_char c s) = after_last c s.
Proof.
  unfold lstrip_char.
  induction s as [|a s IH]; [done|].
  intros Hs. simpl. destruct (Ascii.eqb a c) eqn:Ha; [|by simpl; rewrite Ha].
  assert (ends_with_char c s = false) as Hs'.
  { destruct s; [simpl in Hs; congruence | exact Hs]. }
  rewrite (IH Hs'). destruct (mem_char c s) eqn:Hm; [done|].
  by rewrite after_last_no_mem.
Qed.

Lemma strip_char_no_trailing s :
  ends_with_char c s = false → strip_char c s = lstrip_char c s.
Proof.
  intros Hs. unfold strip_char, strip_by.
  apply rstrip_no_trailing. by apply lstrip_keeps_end.
Qed.
End string_facts.

Lemma dirpart_no_slash s : mem_char slash s = false → dirpart s = EmptyString.
Proof.
  destruct s as [|a s]; simpl; [done|].
  intros [-> ->]%orb_false_elim. done.
Qed.

Lemma parse_description_basename p :
  ends_with_char slash p = false →
  parse_description p = before_first dot (basename p).
Proof.
  intros Hp. unfold parse_description, basename.
  rewrite first_item_split1, last_item_rsplit1.
  rewrite strip_char_no_trailing by done. by rewrite after_last_lstrip.
Qed.

Lemma extract_description_basename p :
  extract_description p = fst (splitext_name (basename p)).
Proof.
  unfold extract_description, splitext.
  assert (mem_char slash (basename p) = false) as Hb by apply mem_after_last.
  unfold basename at 1. rewrite after_last_no_mem by exact Hb.
  rewrite dirpart_no_slash by exact Hb.
  by destruct (splitext_name (basename p)).
Qed.

(** ** Claim C10: the two derivations of a description *)

(** C10, as stated, fails: the base name [.bashrc] has one dot, and yet
    [parse_descriptions] cuts it to the empty string while
    [os.path.splitext] keeps a leading dot in the root. *)
Lemma C10_one_dot_counterexample :
  ¬ (∀ path : string,
       count_char dot (basename path) ≤ 1 →
       parse_description path = extract_description path).
Proof.
  intros H. specialize (H "dir/.bashrc"%string).
  assert (count_char dot (basename "dir/.bashrc") ≤ 1) as Hc by (vm_compute; lia).
  specialize (H Hc). vm_compute in H. discriminate H.
Qed.

(** C10 (amended): for every path that does not end in a slash and whose
    base name has at most one dot, which is not its first character,
    [parse_descriptions] (cut at the first dot) and [extract_description]
    (cut by [os.path.splitext]) agree; on [dir/pose.v1.pdb], whose base name
    has two dots, they differ, so the registry that [set_poses] creates from
    it does not pass the check that [check_data_formatting] makes on result
    tables. *)
Theorem C10_descriptions_agree_up_to_one_dot :
  (∀ path : string,
     ends_with_char slash path = false →
     count_char dot (basename path) ≤ 1 →
     starts_with_char dot (basename path) = false →
     parse_description path = extract_description path)
  ∧ (2 ≤ count_char dot (basename "dir/pose.v1.pdb")
     ∧ parse_description "dir/pose.v1.pdb" = "pose"%string
     ∧ extract_description "dir/pose.v1.pdb" = "pose.v1"%string)
  ∧ (rows (poses_frame ["dir/pose.v1.pdb"%string]) =
       [<["input_poses" := "dir/pose.v1.pdb"%string]>
          (<["poses" := "dir/pose.v1.pdb"%string]>
             (<["poses_description" := "pose"%string]> ∅))]
     ∧ check_data_formatting
         (mkDF ["description"; "location"]
               [<["description" := "pose"%string]>
                  (<["location" := "dir/pose.v1.pdb"%string]> ∅)])
       = Err SchemaMismatch).
Proof.
  split; [|split; [|split]].
  - intros path Hend Hcount Hstart.
    rewrite parse_description_basename by done.
    rewrite extract_description_basename.
    generalize dependent (basename path). intros b Hcount Hstart.
    unfold splitext_name, lstrip_char.
    replace (lstrip_by (λ a, Ascii.eqb a dot) b) with b
      by (destruct b; simpl in *; [done | by rewrite Hstart]).
    destruct (mem_char dot b) eqn:Hm; simpl.
    + by rewrite before_last_single.
    + by apply before_first_no_mem.
  - vm_compute. repeat split; lia.
  - reflexivity.
  - vm_compute. reflexivity.
Qed.

(** The agreement of C10 at a concrete path. *)
Lemma C10_descriptions_agree_witness :
  parse_description "dir/pose_0001.pdb" = extract_description "dir/pose_0001.pdb".
Proof.
  apply (proj1 C10_descriptions_agree_up_to_one_dot "dir/pose_0001.pdb"%string).
  - reflexivity.
  - vm_compute; lia.
  - reflexivity.
Defined.

(** ** Frames *)

Lemma has_col_true d c : pd.has_col d c = true ↔ c ∈ columns d.
Proof. unfold pd.has_col. apply bool_decide_eq_true. Qed.

Lemma has_col_false d c : pd.has_col d c = false ↔ c ∉ columns d.
Proof. unfold pd.has_col. apply bool_decide_eq_false. Qed.

Lemma getitem_Ok d c :
  c ∈ columns d →
  pd.getitem d c = Ok (map (λ r : gmap string string, r !! c) (rows d)).
Proof. intros H%has_col_true. unfold pd.getitem. by rewrite H. Qed.

Lemma getitem_Err d c : c ∉ columns d → pd.getitem d c = Err (KeyError c).
Proof. intros H%has_col_false. unfold pd.getitem. by rewrite H. Qed.

Lemma getitem_inv d c s :
  pd.getitem d c = Ok s →
  c ∈ columns d ∧ s = map (λ r : gmap string string, r !! c) (rows d).
Proof.
  unfold pd.getitem. destruct (pd.has_col d c) eqn:H; [|done].
  intros [= <-]. split; [by apply has_col_true | done].
Qed.

Lemma zip_with_map_same {A B C} (f : A → B → C) (g : A → B) (l : list A) :
  zip_with f l (map g l) = map (λ x, f x (g x)) l.
Proof. induction l as [|x l IH]; simpl; [done | by rewrite IH]. Qed.

Lemma lookup_set_cell c c' r v :
  pd.set_cell c r v !! c' = if decide (c = c') then v else r !! c'.
Proof.
  unfold pd.set_cell. destruct v as [x|].
  - rewrite lookup_insert. by case_decide.
  - rewrite lookup_delete. by case_decide.
Qed.

(** ** Validation of a result table (claim C3) *)

Lemma row_matchesb_spec r : row_matchesb r = true ↔ row_matches r.
Proof.
  unfold row_matchesb, row_matches. split.
  - destruct (r !! "description") as [d|]; [|done].
    destruct (r !! "location") as [l|]; [|done].
    intros ->%String.eqb_eq. eauto.
  - intros (l & -> & ->). apply String.eqb_refl.
Qed.

Lemma apply_extract_description_rows (rs : list (gmap string string)) :
  match apply_extract_description (map (λ r : gmap string string, r !! "location") rs) with
  | Ok ex =>
      Forall (λ r : gmap string string, is_Some (r !! "location")) rs ∧
      forallb id (series_eq (map (λ r : gmap string string, r !! "description") rs) ex)
        = forallb row_matchesb rs
  | Err e =>
      e = TypeError "float" ∧
      ¬ Forall (λ r : gmap string string, is_Some (r !! "location")) rs
  end.
Proof.
  unfold apply_extract_description.
  induction rs as [|r rs IH]; simpl; [by split|].
  destruct (r !! "location") as [l|] eqn:Hl; simpl.
  - destruct (mapM _ _) as [ex|e]; simpl.
    + destruct IH as [IH1 IH2]. split.
      * constructor; [by rewrite Hl | done].
      * unfold row_matchesb at 1. rewrite Hl, IH2.
        by destruct (r !! "description").
    + destruct IH as [-> IH]. split; [done|].
      intros H. apply IH. by inversion H.
  - split; [done|]. intros H. inversion H as [|? ? [? Hs]]; subst.
    rewrite Hl in Hs. done.
Qed.

Lemma mandatory_cols_check res :
  existsb (λ col, negb (pd.has_col res col)) ["description"; "location"] = false
  ↔ "description" ∈ columns res ∧ "location" ∈ columns res.
Proof.
  simpl. rewrite orb_false_r, orb_false_iff, !negb_false_iff, !has_col_true. done.
Qed.

Lemma check_data_formatting_Ok res res' :
  check_data_formatting res = Ok res' ↔ res' = res ∧ valid_table res.
Proof.
  unfold check_data_formatting, valid_table.
  destruct (existsb _ _) eqn:Hcols.
  - split; [done|]. intros (_ & Hd & Hl & _).
    assert (existsb (λ col, negb (pd.has_col res col)) ["description"; "location"] = false)
      as Hf by (by apply mandatory_cols_check).
    congruence.
  - apply mandatory_cols_check in Hcols as [Hd Hl].
    rewrite (getitem_Ok _ _ Hd), (getitem_Ok _ _ Hl). simpl.
    pose proof (apply_extract_description_rows (rows res)) as Hrows.
    destruct (apply_extract_description _) as [ex|e]; simpl.
    + destruct Hrows as [_ Heq]. rewrite Heq.
      destruct (forallb row_matchesb (rows res)) eqn:Hall; simpl.
      * split; [intros [= <-]|intros [-> _]; done].
        split; [done|]. split_and!; [done..|].
        apply Forall_forall. intros r Hr. apply row_matchesb_spec.
        rewrite forallb_forall in Hall. apply Hall. by apply list_elem_of_In.
      * split; [done|]. intros (_ & _ & _ & Hv).
        assert (forallb row_matchesb (rows res) = true); [|congruence].
        apply forallb_forall. intros r Hr%list_elem_of_In.
        apply row_matchesb_spec. by eapply Forall_forall in Hv.
    + destruct Hrows as [_ Hno]. split; [done|]. intros (_ & _ & _ & Hv).
      exfalso. apply Hno. eapply Forall_impl; [exact Hv|].
      intros r (l & -> & _). eauto.
Qed.

(** ** The constructor of [RunnerOutput] (claims C3 and C4) *)

Lemma append_assoc (a b c : string) : (a +:+ b) +:+ c = a +:+ (b +:+ c).
Proof.
  induction a as [|x a IH]; [done|].
  change (String x ((a +:+ b) +:+ c) = String x (a +:+ (b +:+ c))). by rewrite IH.
Qed.

Lemma prefix_column prefix (name : string) :
  (prefix +:+ "_") +:+ name = prefix +:+ String "_" name.
Proof. by rewrite append_assoc. Qed.

Lemma RunnerOutput_init_Ok res prefix k sep ro :
  RunnerOutput_init res prefix k sep = Ok ro ↔
  valid_table res ∧
  ro = {| results :=
            {| columns := map (String.append (prefix +:+ "_"))
                              (if pd.has_col res "select_col" then columns res
                               else columns res ++ ["select_col"]);
               rows := map (prefixed_row prefix k sep) (rows res) |};
          prefix := prefix |}.
Proof.
  unfold RunnerOutput_init.
  destruct (check_data_formatting res) as [res'|e] eqn:Hcheck; simpl.
  - apply check_data_formatting_Ok in Hcheck as [-> Hvalid].
    rewrite (getitem_Ok res "description") by apply Hvalid. simpl.
    assert ((if bool_decide (k ≠ 0%Z)
             then map (fmap (remove_layers k sep))
                      (map (λ r : gmap string string, r !! "description") (rows res))
             else map (λ r : gmap string string, r !! "description") (rows res))
            = map (select_key k sep) (rows res)) as ->.
    { unfold select_key. case_bool_decide; [|done]. by rewrite map_map. }
    unfold pd.add_prefix, pd.rename, pd.setitem. simpl.
    rewrite zip_with_map_same, map_map.
    split; [intros [= <-]; by split | intros [_ ->]; done].
  - split; [done|]. intros [Hvalid _].
    assert (check_data_formatting res = Ok res) as Hok
      by (by apply check_data_formatting_Ok).
    congruence.
Qed.

Lemma prefixed_row_lookup prefix k sep r (name : string) :
  prefixed_row prefix k sep r !! (prefix +:+ String "_" name) =
  if decide ("select_col"%string = name) then select_key k sep r else r !! name.
Proof.
  unfold prefixed_row. rewrite <- prefix_column.
  rewrite (lookup_kmap (String.append (prefix +:+ "_"))).
  apply lookup_set_cell.
Qed.

Lemma slice_to_without_last {A} (k : Z) (l : list A) :
  (0 < k)%Z → slice_to (-1 * k) l = without_last (Z.to_nat k) l.
Proof.
  intros Hk. unfold slice_to, without_last.
  assert ((-1 * k <? 0)%Z = true) as -> by lia.
  replace (- (-1 * k))%Z with k by lia.
  by rewrite drop_reverse, reverse_involutive.
Qed.

(** C3: constructing a [RunnerOutput] succeeds exactly on the valid tables
    (both mandatory columns, and in every row a description that is the
    base name of the location without its extension); a table without
    [description] or [location] raises the missing-columns schema error,
    and a table with both, a location in every row and some row whose
    description is not the stem of its location raises the mismatch schema
    error. *)
Theorem C3_construction_validates res prefix k sep :
  (is_Ok (RunnerOutput_init res prefix k sep) ↔ valid_table res)
  ∧ ("description" ∉ columns res ∨ "location" ∉ columns res →
     RunnerOutput_init res prefix k sep = Err SchemaMissingColumns)
  ∧ ("description" ∈ columns res → "location" ∈ columns res →
     Forall (λ r : gmap string string, is_Some (r !! "location")) (rows res) →
     Exists (λ r : gmap string string,
               ∀ l, r !! "location" = Some l →
                    r !! "description" ≠ Some (extract_description l)) (rows res) →
     RunnerOutput_init res prefix k sep = Err SchemaMismatch).
Proof.
  split; [|split].
  - split.
    + intros [ro Hro]. by apply RunnerOutput_init_Ok in Hro as [? _].
    + intros Hvalid. eexists. apply RunnerOutput_init_Ok. by split.
  - intros Hmissing. unfold RunnerOutput_init, check_data_formatting.
    destruct (existsb _ _) eqn:Hcols; [done|].
    apply mandatory_cols_check in Hcols. tauto.
  - intros Hd Hl Hloc Hbad. unfold RunnerOutput_init, check_data_formatting.
    assert (existsb (λ col, negb (pd.has_col res col)) ["description"; "location"] = false)
      as -> by (by apply mandatory_cols_check).
    rewrite (getitem_Ok _ _ Hd), (getitem_Ok _ _ Hl). simpl.
    pose proof (apply_extract_description_rows (rows res)) as Hrows.
    destruct (apply_extract_description _) as [ex|e]; simpl.
    + destruct Hrows as [_ ->].
      destruct (forallb row_matchesb (rows res)) eqn:Hall; [|done].
      exfalso. apply Exists_exists in Hbad as (r & Hr & Hne).
      rewrite forallb_forall in Hall.
      specialize (Hall r (proj1 (list_elem_of_In _ _) Hr)).
      apply row_matchesb_spec in Hall as (l & Hl' & Hd').
      by apply (Hne l).
    + destruct Hrows as [_ Hno]. done.
Qed.

(** C3 at concrete tables: a valid one, one without [location], and one
    whose description is not the stem of its location. *)
Lemma C3_construction_validates_witness :
  is_Ok (RunnerOutput_init
           (mkDF ["description"; "location"]
                 [<["description" := "a_0001"%string]>
                    (<["location" := "out/a_0001.pdb"%string]> ∅)])
           "rfd" 1 "_")
  ∧ RunnerOutput_init (mkDF ["description"] [<["description" := "a"%string]> ∅])
      "rfd" 1 "_" = Err SchemaMissingColumns
  ∧ RunnerOutput_init
      (mkDF ["description"; "location"]
            [<["description" := "b"%string]> (<["location" := "out/a.pdb"%string]> ∅)])
      "rfd" 1 "_" = Err SchemaMismatch.
Proof.
  split; [|split].
  - apply (proj1 (C3_construction_validates _ "rfd" 1 "_")).
    split; [|split].
    + apply list_elem_of_In. simpl. tauto.
    + apply list_elem_of_In. simpl. tauto.
    + constructor; [|constructor].
      exists "out/a_0001.pdb"%string. split; vm_compute; reflexivity.
  - apply (proj1 (proj2 (C3_construction_validates _ "rfd" 1 "_"))).
    right. intros H%list_elem_of_In. simpl in H. destruct H as [H|H]; [discriminate H|done].
  - apply (proj2 (proj2 (C3_construction_validates _ "rfd" 1 "_"))).
    + apply list_elem_of_In. simpl. tauto.
    + apply list_elem_of_In. simpl. tauto.
    + constructor; [|constructor]. eexists. vm_compute. reflexivity.
    + constructor. intros l. vm_compute. intros [= <-]. discriminate.
Defined.

(** C4: in the table of a constructed [RunnerOutput], row by row, the
    join key [<prefix>_select_col] is the description without its last
    [index_layers] tokens (split and joined again by the separator) when
    [index_layers > 0], and the description itself when [index_layers = 0]. *)
Theorem C4_join_key_strips_layers res prefix k sep ro :
  RunnerOutput_init res prefix k sep = Ok ro →
  length (rows (results ro)) = length (rows res) ∧
  ∀ i r, rows res !! i = Some r →
    ∃ d rr,
      r !! "description" = Some d ∧
      rows (results ro) !! i = Some rr ∧
      rr !! (prefix +:+ "_description") = Some d ∧
      ((0 < k)%Z →
       rr !! (prefix +:+ "_select_col") =
         Some (join (String sep EmptyString)
                    (without_last (Z.to_nat k) (split_char sep d)))) ∧
      (k = 0%Z → rr !! (prefix +:+ "_select_col") = Some d).
Proof.
  intros [Hvalid ->]%RunnerOutput_init_Ok. simpl. split; [by rewrite length_map|].
  intros i r Hi.
  destruct Hvalid as (_ & _ & Hrows).
  assert (r ∈ rows res) as Hr by (by eapply list_elem_of_lookup_2).
  eapply Forall_forall in Hrows as (l & Hl & Hd); [|exact Hr].
  exists (extract_description l), (prefixed_row prefix k sep r).
  split; [done|]. split; [by rewrite list_lookup_fmap, Hi|].
  rewrite !prefixed_row_lookup. simpl. unfold select_key. rewrite Hd. simpl.
  split; [done|]. split.
  - intros Hk. rewrite bool_decide_true by lia.
    unfold remove_layers. by rewrite slice_to_without_last.
  - intros ->. by rewrite bool_decide_false by lia.
Qed.

(** C4 on the fan-out table, one layer stripped. *)
Lemma C4_join_key_strips_layers_witness :
  let ro := {| results :=
                 {| columns := ["rfd_description"; "rfd_location"; "rfd_select_col"];
                    rows := map (prefixed_row "rfd" 1 "_") (rows fanout_results) |};
               prefix := "rfd" |} in
  RunnerOutput_init fanout_results "rfd" 1 "_" = Ok ro ∧
  length (rows (results ro)) = length (rows fanout_results).
Proof.
  intros ro.
  assert (RunnerOutput_init fanout_results "rfd" 1 "_" = Ok ro) as H
    by (vm_compute; reflexivity).
  split; [exact H|].
  exact (proj1 (C4_join_key_strips_layers fanout_results "rfd" 1 "_"%char ro H)).
Defined.

(** ** Option strings (claim C5) *)

Lemma expand_options_flags_total (options_str : option string) (sep : string) :
  sep ≠ EmptyString →
  ∃ opts flags, expand_options_flags options_str sep = Ok (opts, flags).
Proof.
  intros Hsep. destruct options_str as [[|a s]|]; simpl; [by eauto| |by eauto].
  unfold str_split. destruct (String.eqb_spec sep EmptyString) as [|_]; [done|]. simpl.
  destruct (foldl _ _ _) as [opts flags]. eauto.
Qed.

Lemma dict_update_lookup (d other : gmap string string) (key : string) :
  dict_update d other !! key =
  match other !! key with Some v => Some v | None => d !! key end.
Proof.
  unfold dict_update. destruct (other !! key) as [v|] eqn:Hk.
  - by apply lookup_union_Some_l.
  - rewrite lookup_union_r by done. done.
Qed.

(** C5: with a non-empty separator (the default is [--]),
    [parse_generic_options] never raises; its map is the map of the generic
    string updated by the map of the pose-specific string, whose value wins
    on a common key, and its flags are the union of the two flag sets.  The
    two examples of the specification evaluate as stated, and an absent or
    empty string gives the empty map and the empty flag set. *)
Theorem C5_parse_generic_options_merges :
  (∀ (options pose_options : option string) (sep : string),
     sep ≠ EmptyString →
     ∃ opts flags pose_opts pose_flags merged,
       expand_options_flags options sep = Ok (opts, flags) ∧
       expand_options_flags pose_options sep = Ok (pose_opts, pose_flags) ∧
       parse_generic_options options pose_options sep
         = Ok (merged, flags ∪ pose_flags) ∧
       ∀ key, merged !! key =
              match pose_opts !! key with Some v => Some v | None => opts !! key end)
  ∧ parse_generic_options (Some "--width 800 --height 600")
                          (Some "--color blue --verbose") "--"
    = Ok (<["width" := "800"]> (<["height" := "600"]> (<["color" := "blue"]> ∅)),
          {["verbose"]})%string
  ∧ parse_generic_options (Some "--x 1") (Some "--x 2") "--"
    = Ok (<["x" := "2"]> ∅, ∅)%string
  ∧ (∀ sep, expand_options_flags None sep = Ok (∅, ∅))
  ∧ (∀ sep, expand_options_flags (Some EmptyString) sep = Ok (∅, ∅)).
Proof.
  split_and!; [|vm_compute; reflexivity..|reflexivity|reflexivity].
  intros options pose_options sep Hsep.
  destruct (expand_options_flags_total options sep Hsep) as (opts & flags & H1).
  destruct (expand_options_flags_total pose_options sep Hsep)
    as (pose_opts & pose_flags & H2).
  exists opts, flags, pose_opts, pose_flags, (dict_update opts pose_opts).
  split_and!; [done..| |].
  - unfold parse_generic_options. rewrite H1, H2. done.
  - intros key. apply dict_update_lookup.
Qed.

(** C5 at the default separator, on a generic string and an override that
    share the key [x]. *)
Lemma C5_parse_generic_options_merges_witness :
  ∃ opts flags pose_opts pose_flags merged,
    expand_options_flags (Some "--x 1 --fast") "--" = Ok (opts, flags) ∧
    expand_options_flags (Some "--x 2") "--" = Ok (pose_opts, pose_flags) ∧
    parse_generic_options (Some "--x 1 --fast") (Some "--x 2") "--"
      = Ok (merged, flags ∪ pose_flags) ∧
    ∀ key, merged !! key =
           match pose_opts !! key with Some v => Some v | None => opts !! key end.
Proof.
  apply (proj1 C5_parse_generic_options_merges
           (Some "--x 1 --fast"%string) (Some "--x 2"%string) "--"%string).
  discriminate.
Defined.

(** ** Per-pose options (claim C9) *)

(** C9 (the code against the claim): a column name that is in the table
    does not give the values of the column: [prep_pose_options] calls
    [poses_list] on a pandas Series, which has no such method, and raises
    [AttributeError].  The other cases are as the claim has them: an absent
    column raises [KeyError], a list of another length than a non-empty
    registry raises, a list for an empty registry or of the right length is
    returned, and no argument gives one [None] per row. *)
Theorem C9_prep_pose_options_cases (poses : Poses) :
  (∀ column, column ∈ columns (df poses) →
     prep_pose_options poses (OptionsColumn column) = Err (AttributeError "poses_list"))
  ∧ (∀ column, column ∉ columns (df poses) →
     prep_pose_options poses (OptionsColumn column) = Err (KeyError column))
  ∧ (∀ l, length l ≠ Poses_len poses → Poses_len poses ≠ 0 →
     prep_pose_options poses (OptionsList l) = Err OptionsLength)
  ∧ (∀ l, length l = Poses_len poses ∨ Poses_len poses = 0 →
     prep_pose_options poses (OptionsList l) = Ok l)
  ∧ prep_pose_options poses OptionsNone = Ok (replicate (Poses_len poses) None).
Proof.
  unfold prep_pose_options, col_in_df. split_and!.
  - intros column Hc. rewrite (proj2 (has_col_true _ _) Hc). simpl.
    by rewrite getitem_Ok.
  - intros column Hc. by rewrite (proj2 (has_col_false _ _) Hc).
  - intros l Hl Hn. simpl.
    rewrite !bool_decide_true by done. done.
  - intros l Hl. simpl.
    destruct Hl as [Hl|Hl].
    + rewrite (bool_decide_false (Poses_len poses ≠ length l)) by lia. done.
    + rewrite (bool_decide_false (Poses_len poses ≠ 0)) by lia.
      by rewrite andb_false_r.
  - simpl. rewrite length_map.
    rewrite (bool_decide_false (Poses_len poses ≠ _))
      by (unfold Poses_len, pd.len; lia).
    simpl. f_equal. unfold Poses_len, pd.len.
    induction (rows (df poses)) as [|r rs IH]; simpl; [done | by rewrite IH].
Qed.

(** C9 at the registry of two poses: its column [poses] cannot be used as
    the per-pose options. *)
Lemma C9_prep_pose_options_cases_witness :
  prep_pose_options two_poses (OptionsColumn "poses") = Err (AttributeError "poses_list").
Proof.
  apply (proj1 (C9_prep_pose_options_cases two_poses)).
  apply list_elem_of_In. simpl. tauto.
Defined.

(** ** Duplication (claim C7) *)

Lemma drop_missing d c : c ∉ columns d → pd.drop d c = Err (KeyError c).
Proof. intros H%has_col_false. unfold pd.drop. by rewrite H. Qed.

(** C7 (the code against the claim): [duplicate_poses] does not keep the
    frame that [merge] returns, so the column [temp_dp_select_col] it then
    drops is not in the registry table: the call raises and the registry is
    what it was.  On the registry of two poses, [duplicate_poses("out", 2)]
    raises [KeyError] and the table keeps its two rows instead of four. *)
Theorem C7_duplicate_poses_raises :
  (∀ (w : World) (output_dir : string) (n_duplicates : nat),
     "temp_dp_select_col" ∉ columns (df (self w)) →
     is_Err (fst (run (duplicate_poses output_dir n_duplicates) w)) ∧
     snd (run (duplicate_poses output_dir n_duplicates) w) = w)
  ∧ fst (run (duplicate_poses "out" 2) (two_files two_poses))
    = Err (KeyError "temp_dp_select_col")
  ∧ length (rows (df (self (snd (run (duplicate_poses "out" 2) (two_files two_poses))))))
    = 2.
Proof.
  split; [|split; vm_compute; reflexivity].
  intros w output_dir n Hcol. unfold duplicate_poses. simpl.
  destruct (poses_list (self w)) as [poses|e]; simpl; [|by split; [eexists|]].
  destruct (mapM _ _) as [output_files|e]; simpl; [|by split; [eexists|]].
  destruct (pd.merge _ _ _ _) as [merged|e]; simpl; [|by split; [eexists|]].
  rewrite drop_missing by done. simpl. by split; [eexists|].
Qed.

(** C7 at the registry of two poses and three duplicates. *)
Lemma C7_duplicate_poses_raises_witness :
  is_Err (fst (run (duplicate_poses "dup" 3) (two_files two_poses))) ∧
  snd (run (duplicate_poses "dup" 3) (two_files two_poses)) = two_files two_poses.
Proof.
  apply (proj1 C7_duplicate_poses_raises (two_files two_poses) "dup"%string 3).
  intros H%list_elem_of_In. simpl in H.
  repeat (destruct H as [H|H]; [discriminate H|]). exact H.
Defined.

(** ** The reconciliation merge *)

Lemma return_poses_run ro p :
  run (return_poses ro) p =
  match merger ro p ≫= after_merger (prefix ro) (pd.len (results ro)) with
  | Ok d => (Ok tt, mkPoses d)
  | Err e => (Err e, p)
  end.
Proof.
  unfold return_poses, merger, after_merger. simpl.
  destruct (poses_list p) as [current|e]; simpl; [|done].
  destruct (bool_decide (length current = 0)); simpl.
  - destruct (pd.drop _ _) as [d0|e]; simpl; [|done].
    unfold raise_if.
    destruct (bool_decide (pd.len d0 = 0)); simpl; [done|].
    destruct (bool_decide (pd.len d0 < pd.len (results ro))); simpl; [done|].
    destruct (pd.getitem d0 _) as [loc|e]; simpl; [|done].
    destruct (pd.getitem _ _) as [desc|e]; simpl; done.
  - destruct (pd.merge _ _ _ _) as [m|e]; simpl; [|done].
    destruct (pd.drop _ _) as [d0|e]; simpl; [|done].
    unfold raise_if.
    destruct (bool_decide (pd.len d0 = 0)); simpl; [done|].
    destruct (bool_decide (pd.len d0 < pd.len (results ro))); simpl; [done|].
    destruct (pd.getitem d0 _) as [loc|e]; simpl; [|done].
    destruct (pd.getitem _ _) as [desc|e]; simpl; done.
Qed.

Lemma length_append (a b : string) :
  String.length (a +:+ b) = String.length a + String.length b.
Proof.
  induction a as [|x a IH]; [done|].
  change (S (String.length (a +:+ b)) = S (String.length a + String.length b)).
  by rewrite IH.
Qed.

Lemma prefixed_ne prefix (x y : string) : x ≠ y → prefix +:+ x ≠ prefix +:+ y.
Proof. intros Hne Heq. by apply (inj (String.append prefix)) in Heq. Qed.

Lemma description_column_ne_poses prefix : prefix +:+ "_description" ≠ "poses"%string.
Proof.
  intros Heq. apply (f_equal String.length) in Heq.
  rewrite length_append in Heq. simpl in Heq. lia.
Qed.

Lemma drop_Ok d c :
  c ∈ columns d →
  pd.drop d c = Ok {| columns := filter (λ x, x ≠ c) (columns d);
                      rows := map (delete c) (rows d) |}.
Proof. intros H%has_col_true. unfold pd.drop. by rewrite H. Qed.

Lemma setitem_rows d c (g : gmap string string → option string) :
  rows (pd.setitem d c (map g (rows d))) = map (λ r, pd.set_cell c r (g r)) (rows d).
Proof. unfold pd.setitem. simpl. apply zip_with_map_same. Qed.

Lemma setitem_columns d c values c' :
  c' ∈ columns (pd.setitem d c values) ↔ c' ∈ columns d ∨ c' = c.
Proof.
  unfold pd.setitem. simpl. destruct (pd.has_col d c) eqn:Hc.
  - apply has_col_true in Hc. split; [by left | intros [?| ->]; done].
  - rewrite elem_of_app, list_elem_of_singleton. done.
Qed.

Lemma reset_row_description prefix r :
  reset_row prefix r !! "poses_description" = r !! (prefix +:+ "_description").
Proof.
  unfold reset_row. rewrite !lookup_set_cell.
  rewrite decide_True by done.
  rewrite decide_False by (intros H; by apply (description_column_ne_poses prefix)).
  apply lookup_delete_ne. by apply prefixed_ne.
Qed.

Lemma reset_row_poses prefix r :
  reset_row prefix r !! "poses" = r !! (prefix +:+ "_location").
Proof.
  unfold reset_row. rewrite !lookup_set_cell.
  rewrite decide_False by done. rewrite decide_True by done.
  apply lookup_delete_ne. by apply prefixed_ne.
Qed.

Lemma reset_row_other prefix r c :
  c ≠ "poses"%string → c ≠ "poses_description"%string →
  reset_row prefix r !! c = delete (prefix +:+ "_select_col") r !! c.
Proof.
  intros H1 H2. unfold reset_row. rewrite !lookup_set_cell.
  rewrite decide_False by done. by rewrite decide_False by done.
Qed.

(** The cleanup and the checks on a merged frame that has the three
    prefixed columns. *)
Lemma after_merger_spec prefix startlen m :
  prefix +:+ "_select_col" ∈ columns m →
  prefix +:+ "_location" ∈ columns m →
  prefix +:+ "_description" ∈ columns m →
  ∃ cols,
    (∀ c, c ∈ cols ↔
          (c ∈ columns m ∧ c ≠ prefix +:+ "_select_col")
          ∨ c = "poses"%string ∨ c = "poses_description"%string) ∧
    after_merger prefix startlen m =
      if bool_decide (length (rows m) = 0) then Err NoOverlap
      else if bool_decide (length (rows m) < startlen) then Err PipelineDrop
      else Ok {| columns := cols; rows := map (reset_row prefix) (rows m) |}.
Proof.
  intros HS HL HD. unfold after_merger. rewrite (drop_Ok _ _ HS). simpl.
  set (d0 := {| columns := filter (λ x, x ≠ prefix +:+ "_select_col") (columns m);
                rows := map (delete (prefix +:+ "_select_col")) (rows m) |}).
  assert (∀ c, c ∈ columns d0 ↔ c ∈ columns m ∧ c ≠ prefix +:+ "_select_col") as Hd0.
  { intros c. unfold d0. simpl. rewrite list_elem_of_filter. tauto. }
  assert (prefix +:+ "_location" ∈ columns d0) as HL0.
  { apply Hd0. split; [done|]. by apply prefixed_ne. }
  assert (prefix +:+ "_description" ∈ columns d0) as HD0.
  { apply Hd0. split; [done|]. by apply prefixed_ne. }
  rewrite (getitem_Ok d0 _ HL0).
  set (d1 := pd.setitem d0 "poses"
               (map (λ r : gmap string string, r !! (prefix +:+ "_location")) (rows d0))).
  change (Ok (map (λ r : gmap string string, r !! (prefix +:+ "_location")) (rows d0))
          ≫= λ location : Series,
               pd.getitem (pd.setitem d0 "poses" location) (prefix +:+ "_description")
               ≫= λ description : Series,
                    Ok (pd.setitem (pd.setitem d0 "poses" location)
                          "poses_description" description))
    with (pd.getitem d1 (prefix +:+ "_description")
          ≫= λ description : Series,
               Ok (pd.setitem d1 "poses_description" description)).
  assert (prefix +:+ "_description" ∈ columns d1) as HD1.
  { apply setitem_columns. by left. }
  eexists (columns (pd.setitem d1 "poses_description"
                      (map (λ r : gmap string string, r !! (prefix +:+ "_description"))
                           (rows d1)))).
  split.
  - intros c. rewrite setitem_columns. unfold d1. rewrite setitem_columns, Hd0. tauto.
  - unfold pd.len. replace (length (rows d0)) with (length (rows m))
      by (unfold d0; simpl; by rewrite length_map).
    case_bool_decide; [done|]. case_bool_decide; [done|].
    rewrite (getitem_Ok d1 _ HD1).
    change (Ok (pd.setitem d1 "poses_description"
                  (map (λ r : gmap string string, r !! (prefix +:+ "_description"))
                       (rows d1)))
            = Ok {| columns :=
                      columns (pd.setitem d1 "poses_description"
                                 (map (λ r : gmap string string,
                                         r !! (prefix +:+ "_description")) (rows d1)));
                    rows := map (reset_row prefix) (rows m) |}).
    f_equal.
    transitivity
      {| columns := columns (pd.setitem d1 "poses_description"
                               (map (λ r : gmap string string,
                                       r !! (prefix +:+ "_description")) (rows d1)));
         rows := rows (pd.setitem d1 "poses_description"
                         (map (λ r : gmap string string,
                                 r !! (prefix +:+ "_description")) (rows d1))) |};
      [by destruct (pd.setitem d1 _ _)|].
    f_equal. rewrite setitem_rows. unfold d1. rewrite setitem_rows.
    unfold d0. simpl. rewrite !map_map. done.
Qed.

Lemma kmap_pointwise_id (f : string → string) (m : gmap string string) :
  (∀ c, f c = c) → kmap f m = m.
Proof.
  intros Hf.
  assert (Inj (=) (=) f) as Hinj by (intros x y; rewrite !Hf; done).
  apply map_eq. intros i. rewrite <- (Hf i) at 1. apply (lookup_kmap f).
Qed.

Lemma suffixed_nil sfx c : pd.suffixed sfx [] c = c.
Proof. unfold pd.suffixed. rewrite bool_decide_false; [done | apply not_elem_of_nil]. Qed.

Lemma map_pointwise_id {A} (f : A → A) (l : list A) : (∀ x, f x = x) → map f l = l.
Proof. intros Hf. induction l as [|x l IH]; simpl; [done | by rewrite Hf, IH]. Qed.

Lemma RunnerOutput_init_columns res pfx k sep ro :
  RunnerOutput_init res pfx k sep = Ok ro →
  prefix ro = pfx ∧
  rows (results ro) = map (prefixed_row pfx k sep) (rows res) ∧
  pfx +:+ "_select_col" ∈ columns (results ro) ∧
  pfx +:+ "_location" ∈ columns (results ro) ∧
  pfx +:+ "_description" ∈ columns (results ro).
Proof.
  intros [(Hd & Hl & _) ->]%RunnerOutput_init_Ok. simpl.
  split; [done|]. split; [done|].
  rewrite <- (prefix_column pfx "select_col"), <- (prefix_column pfx "location"),
    <- (prefix_column pfx "description").
  assert (∀ c, c ∈ (if pd.has_col res "select_col" then columns res
                    else columns res ++ ["select_col"])
               ↔ c ∈ columns res ∨ c = "select_col"%string) as Hc.
  { intros c. destruct (pd.has_col res "select_col") eqn:Hs.
    - apply has_col_true in Hs. split; [by left | intros [?| ->]; done].
    - rewrite elem_of_app, list_elem_of_singleton. done. }
  split_and!; apply (list_elem_of_fmap_2 (String.append (pfx +:+ "_")));
    apply Hc; auto.
Qed.

Lemma merger_bootstrap ro p :
  "poses" ∈ columns (df p) → rows (df p) = [] →
  merger ro p = Ok (pd.concat (df p) (results ro)).
Proof.
  intros Hp Hrows. unfold merger, poses_list. rewrite (getitem_Ok _ _ Hp).
  rewrite Hrows. done.
Qed.

Lemma merger_join ro p :
  "poses" ∈ columns (df p) → "poses_description" ∈ columns (df p) →
  rows (df p) ≠ [] →
  prefix ro +:+ "_select_col" ∈ columns (results ro) →
  no_clash (df p) ro →
  merger ro p = Ok {| columns := columns (df p) ++ columns (results ro);
                      rows := map (λ lr, lr.1 ∪ lr.2) (joined p ro) |}.
Proof.
  intros Hp Hpd Hrows HS Hclash. unfold merger, poses_list.
  rewrite (getitem_Ok _ _ Hp). simpl.
  rewrite bool_decide_false
    by (rewrite length_map; destruct (rows (df p)); [done | simpl; lia]).
  unfold pd.merge.
  rewrite (proj2 (has_col_true _ _) Hpd), (proj2 (has_col_true _ _) HS). simpl.
  assert (filter (λ c, c ∈ columns (results ro)) (columns (df p)) = []) as ->.
  { clear -Hclash. unfold no_clash in Hclash.
    induction (columns (df p)) as [|c cs IH]; [done|].
    rewrite filter_cons. rewrite decide_False by (apply Hclash; left).
    apply IH. intros c' Hc'. apply Hclash. by right. }
  f_equal. f_equal.
  - by rewrite !map_pointwise_id by apply suffixed_nil.
  - unfold joined. apply map_ext. intros [l r]. simpl.
    by rewrite !kmap_pointwise_id by apply suffixed_nil.
Qed.

(** *** Counting the joined rows *)

Section join_counting.
Context (left_on right_on : string).
Implicit Types (L R : list (gmap string string)) (l r : gmap string string).

Abbreviation pairs_of := (pd.join_rows left_on right_on).

Lemma pairs_of_cons_l l L R :
  pairs_of (l :: L) R =
  (R ≫= λ r : gmap string string,
     if decide (l !! left_on = r !! right_on) then [(l, r)] else [])
    ++ pairs_of L R.
Proof. done. Qed.

Lemma pairs_of_elem L R l r :
  (l, r) ∈ pairs_of L R ↔ l ∈ L ∧ r ∈ R ∧ l !! left_on = r !! right_on.
Proof.
  unfold pd.join_rows. rewrite list_elem_of_bind. split.
  - intros (l' & (r' & Hin & Hr)%list_elem_of_bind & Hl).
    case_decide; [|by apply elem_of_nil in Hin].
    apply list_elem_of_singleton in Hin as [= -> ->]. done.
  - intros (Hl & Hr & Heq). exists l. split; [|done].
    apply list_elem_of_bind. exists r. split; [|done].
    rewrite decide_True by done. by apply list_elem_of_singleton.
Qed.

Lemma matches_length l R :
  length (R ≫= λ r : gmap string string,
     if decide (l !! left_on = r !! right_on) then [(l, r)] else [])
  = length (filter (λ r : gmap string string, l !! left_on = r !! right_on) R).
Proof.
  induction R as [|r R IH]; [done|].
  rewrite bind_cons, length_app, IH, filter_cons.
  by case_decide.
Qed.

Lemma pairs_of_length_cons_r L r R :
  length (pairs_of L (r :: R)) =
  length (filter (λ l : gmap string string, l !! left_on = r !! right_on) L) + length (pairs_of L R).
Proof.
  induction L as [|l L IH]; [done|].
  rewrite !pairs_of_cons_l, !length_app, IH, !matches_length, !filter_cons.
  repeat case_decide; simpl; lia.
Qed.

Lemma pairs_of_nil_r L : pairs_of L [] = [].
Proof. induction L as [|l L IH]; [done|]. by rewrite pairs_of_cons_l, IH. Qed.

(** Every right row that has a partner is kept at least once. *)
Lemma pairs_of_all_matched L R :
  Forall (λ r : gmap string string, ∃ l, l ∈ L ∧ l !! left_on = r !! right_on) R →
  length R ≤ length (pairs_of L R).
Proof.
  induction R as [|r R IH]; intros HR; [simpl; lia|].
  inversion HR as [|? ? (l & Hl & Heq) HR']; subst.
  rewrite pairs_of_length_cons_r. specialize (IH HR').
  assert (l ∈ filter (λ l : gmap string string, l !! left_on = r !! right_on) L) as Hin
    by (by apply list_elem_of_filter).
  destruct (filter _ L); [by apply elem_of_nil in Hin | simpl; lia].
Qed.

(** With distinct keys on the left, a right row is kept at most once. *)
Lemma filter_key_at_most_one L (key : option string) :
  NoDup (map (λ l : gmap string string, l !! left_on) L) →
  length (filter (λ l : gmap string string, l !! left_on = key) L) ≤ 1.
Proof.
  induction L as [|l L IH]; simpl; [lia|].
  intros [Hl HL]%NoDup_cons. rewrite filter_cons. case_decide as Hk; [|by apply IH].
  assert (filter (λ l0 : gmap string string, l0 !! left_on = key) L = []) as ->; [|simpl; lia].
  destruct (filter _ L) as [|l' ?] eqn:Hf; [done|]. exfalso. apply Hl.
  assert (l' ∈ filter (λ l0 : gmap string string, l0 !! left_on = key) L) as Hin
    by (rewrite Hf; left).
  apply list_elem_of_filter in Hin as [Hk' Hin].
  rewrite Hk, <- Hk'. apply list_elem_of_In, in_map, list_elem_of_In. exact Hin.
Qed.

Lemma pairs_of_at_most L R :
  NoDup (map (λ l : gmap string string, l !! left_on) L) →
  length (pairs_of L R) ≤ length R.
Proof.
  intros HL. induction R as [|r R IH]; [by rewrite pairs_of_nil_r|].
  rewrite pairs_of_length_cons_r. simpl.
  pose proof (filter_key_at_most_one L (r !! right_on) HL). lia.
Qed.

Lemma pairs_of_unmatched L R :
  NoDup (map (λ l : gmap string string, l !! left_on) L) →
  Exists (λ r : gmap string string, ∀ l, l ∈ L → l !! left_on ≠ r !! right_on) R →
  length (pairs_of L R) < length R.
Proof.
  intros HL. induction R as [|r R IH]; intros HR; [by inversion HR|].
  rewrite pairs_of_length_cons_r. simpl.
  inversion HR as [? ? Hr|? ? HR']; subst.
  - assert (filter (λ l : gmap string string, l !! left_on = r !! right_on) L = []) as ->.
    { destruct (filter _ L) as [|l ?] eqn:Hf; [done|]. exfalso.
      assert (l ∈ filter (λ l : gmap string string, l !! left_on = r !! right_on) L) as Hin
        by (rewrite Hf; left).
      apply list_elem_of_filter in Hin as [Hk Hin]. by apply (Hr l). }
    pose proof (pairs_of_at_most L R HL). simpl. lia.
  - specialize (IH HR').
    pose proof (filter_key_at_most_one L (r !! right_on) HL). lia.
Qed.

Lemma pairs_of_no_overlap L R :
  (∀ l r, l ∈ L → r ∈ R → l !! left_on ≠ r !! right_on) →
  pairs_of L R = [].
Proof.
  intros Hno. destruct (pairs_of L R) as [|[l r] ps] eqn:Hp; [done|]. exfalso.
  assert ((l, r) ∈ pairs_of L R) as Hin by (rewrite Hp; left).
  apply pairs_of_elem in Hin as (Hl & Hr & Heq). by apply (Hno l r).
Qed.
End join_counting.

(** *** What [return_poses] computes *)

(** On a registry with rows: the join, the two checks, the reset. *)
Lemma return_poses_join_run p res prefix k sep ro :
  "poses" ∈ columns (df p) → "poses_description" ∈ columns (df p) →
  rows (df p) ≠ [] →
  RunnerOutput_init res prefix k sep = Ok ro →
  no_clash (df p) ro →
  ∃ cols,
    (∀ c, c ∈ cols ↔
          ((c ∈ columns (df p) ∨ c ∈ columns (results ro))
           ∧ c ≠ prefix +:+ "_select_col")
          ∨ c = "poses"%string ∨ c = "poses_description"%string) ∧
    run (return_poses ro) p =
      if bool_decide (length (joined p ro) = 0) then (Err NoOverlap, p)
      else if bool_decide (length (joined p ro) < length (rows res))
           then (Err PipelineDrop, p)
           else (Ok tt, mkPoses {| columns := cols;
                                   rows := map (λ lr, reset_row prefix (lr.1 ∪ lr.2))
                                               (joined p ro) |}).
Proof.
  intros Hp Hpd Hrows Hinit Hclash.
  destruct (RunnerOutput_init_columns _ _ _ _ _ Hinit) as (Hprefix & Hr & HS & HL & HD).
  rewrite return_poses_run, Hprefix.
  rewrite merger_join by (rewrite ?Hprefix; done). simpl.
  set (m := {| columns := columns (df p) ++ columns (results ro);
               rows := map (λ lr, lr.1 ∪ lr.2) (joined p ro) |}).
  destruct (after_merger_spec prefix (pd.len (results ro)) m) as (cols & Hcols & ->).
  { simpl. apply elem_of_app. by right. }
  { simpl. apply elem_of_app. by right. }
  { simpl. apply elem_of_app. by right. }
  exists cols. split.
  - intros c. rewrite Hcols. simpl. by rewrite elem_of_app.
  - simpl. rewrite length_map. unfold pd.len. rewrite Hr, length_map, map_map.
    repeat case_bool_decide; done.
Qed.

(** On a registry without rows: the concatenation, the check, the reset. *)
Lemma return_poses_bootstrap_run p res prefix k sep ro :
  "poses" ∈ columns (df p) → rows (df p) = [] →
  RunnerOutput_init res prefix k sep = Ok ro →
  ∃ cols,
    (∀ c, c ∈ cols ↔
          ((c ∈ columns (df p) ∨ c ∈ columns (results ro))
           ∧ c ≠ prefix +:+ "_select_col")
          ∨ c = "poses"%string ∨ c = "poses_description"%string) ∧
    run (return_poses ro) p =
      if bool_decide (length (rows res) = 0) then (Err NoOverlap, p)
      else (Ok tt, mkPoses {| columns := cols;
                              rows := map (reset_row prefix) (rows (results ro)) |}).
Proof.
  intros Hp Hrows Hinit.
  destruct (RunnerOutput_init_columns _ _ _ _ _ Hinit) as (Hprefix & Hr & HS & HL & HD).
  rewrite return_poses_run, Hprefix.
  rewrite merger_bootstrap by done. simpl.
  assert (∀ c, c ∈ columns (pd.concat (df p) (results ro))
               ↔ c ∈ columns (df p) ∨ c ∈ columns (results ro)) as Hconcat.
  { intros c. unfold pd.concat. simpl. rewrite elem_of_app, list_elem_of_filter.
    destruct (decide (c ∈ columns (df p))); tauto. }
  destruct (after_merger_spec prefix (pd.len (results ro))
              (pd.concat (df p) (results ro))) as (cols & Hcols & ->);
    [apply Hconcat; by right..|].
  exists cols. split.
  - intros c. by rewrite Hcols, Hconcat.
  - unfold pd.concat at 1 2 3. simpl. rewrite Hrows. simpl.
    unfold pd.len. rewrite Hr, length_map.
    case_bool_decide; [done|]. rewrite bool_decide_false by lia. done.
Qed.

(** *** Claim C1 *)

(** C1, as stated, fails: the registry holds [a] and [b], the stage only
    returned [a]; the registry row [b] has no result row, the join has one
    row where the registry had two, and [return_poses] raises nothing. *)
Lemma C1_dropped_entity_counterexample :
  let ro := {| results := {| columns := ["rfd_description"; "rfd_location"; "rfd_select_col"];
                             rows := map (prefixed_row "rfd" 0 "_") (rows partial_results) |};
               prefix := "rfd" |} in
  RunnerOutput_init partial_results "rfd" 0 "_" = Ok ro ∧
  rows (df two_poses) ≠ [] ∧
  (∃ l, l ∈ rows (df two_poses) ∧
        ∀ r, r ∈ rows (results ro) → ¬ joins "rfd" l r) ∧
  length (joined two_poses ro) < length (rows (df two_poses)) ∧
  fst (run (return_poses ro) two_poses) = Ok tt.
Proof.
  intros ro. split_and!.
  - vm_compute. reflexivity.
  - discriminate.
  - exists (registry_row "in/b.pdb" "in/b.pdb" "b"). split.
    + apply list_elem_of_In. right. left. vm_compute. reflexivity.
    + intros r Hr%list_elem_of_In. simpl in Hr. destruct Hr as [<-|[]].
      unfold joins. vm_compute. discriminate.
  - vm_compute. lia.
  - vm_compute. reflexivity.
Qed.

(** C1 (amended): on a registry with rows, a validated result table and no
    clash of column names, [return_poses] counts the joined rows against the
    result table, not against the registry: no joined row raises the
    no-overlap error, fewer joined rows than the result table has raise the
    pipeline-drop error; so, the registry descriptions being distinct, a
    result row without a registry row always raises one of the two, and
    when every row of a non-empty result table has a registry row nothing
    is raised (in particular when, besides, every registry row has a result
    row). *)
Theorem C1_join_failures p res prefix k sep ro :
  "poses" ∈ columns (df p) → "poses_description" ∈ columns (df p) →
  rows (df p) ≠ [] →
  RunnerOutput_init res prefix k sep = Ok ro →
  no_clash (df p) ro →
  (length (joined p ro) = 0 → run (return_poses ro) p = (Err NoOverlap, p))
  ∧ (0 < length (joined p ro) < length (rows res) →
     run (return_poses ro) p = (Err PipelineDrop, p))
  ∧ (NoDup (map (λ l : gmap string string, l !! "poses_description") (rows (df p))) →
     Exists (λ r : gmap string string, ∀ l, l ∈ rows (df p) → ¬ joins prefix l r)
            (rows (results ro)) →
     run (return_poses ro) p = (Err NoOverlap, p)
     ∨ run (return_poses ro) p = (Err PipelineDrop, p))
  ∧ (rows res ≠ [] →
     Forall (λ r : gmap string string, ∃ l, l ∈ rows (df p) ∧ joins prefix l r)
            (rows (results ro)) →
     ∃ p', run (return_poses ro) p = (Ok tt, p')
           ∧ length (rows (df p')) = length (joined p ro))
  ∧ (Forall (λ l : gmap string string, ∃ r, r ∈ rows (results ro) ∧ joins prefix l r)
            (rows (df p)) →
     Forall (λ r : gmap string string, ∃ l, l ∈ rows (df p) ∧ joins prefix l r)
            (rows (results ro)) →
     ∃ p', run (return_poses ro) p = (Ok tt, p')).
Proof.
  intros Hp Hpd Hrows Hinit Hclash.
  destruct (return_poses_join_run p res prefix k sep ro) as (cols & _ & Hrun); [done..|].
  destruct (RunnerOutput_init_columns _ _ _ _ _ Hinit) as (Hprefix & Hr & _).
  assert (length (rows (results ro)) = length (rows res)) as Hlen
    by (by rewrite Hr, length_map).
  assert (joined p ro = pd.join_rows "poses_description" (prefix +:+ "_select_col")
                          (rows (df p)) (rows (results ro))) as Hj
    by (unfold joined, pd.join_pairs; by rewrite Hprefix).
  assert (rows res ≠ [] →
     Forall (λ r : gmap string string, ∃ l, l ∈ rows (df p) ∧ joins prefix l r)
            (rows (results ro)) →
     ∃ p', run (return_poses ro) p = (Ok tt, p')
           ∧ length (rows (df p')) = length (joined p ro)) as Hok.
  { intros Hres Hall.
    pose proof (pairs_of_all_matched "poses_description" (prefix +:+ "_select_col")
                  (rows (df p)) (rows (results ro)) Hall) as Hge.
    rewrite <- Hj, Hlen in Hge.
    assert (0 < length (rows res)) by (destruct (rows res); [done | simpl; lia]).
    rewrite Hrun. rewrite bool_decide_false by lia. rewrite bool_decide_false by lia.
    eexists. split; [done|]. simpl. by rewrite length_map. }
  split_and!.
  - intros H0. rewrite Hrun. by rewrite bool_decide_true.
  - intros [H0 Hlt]. rewrite Hrun. rewrite bool_decide_false by lia.
    by rewrite bool_decide_true.
  - intros Hnodup Hex.
    pose proof (pairs_of_unmatched "poses_description" (prefix +:+ "_select_col")
                  (rows (df p)) (rows (results ro)) Hnodup Hex) as Hlt.
    rewrite <- Hj, Hlen in Hlt. rewrite Hrun.
    case_bool_decide; [by left|]. right. by rewrite bool_decide_true.
  - exact Hok.
  - intros Hleft Hright.
    destruct Hok as (p' & Hp' & _); [|done|by exists p'].
    destruct (rows (df p)) as [|l ls] eqn:Hl; [done|].
    inversion Hleft as [|? ? (r & Hrin & _) _]; subst.
    intros Hnil.
    assert (length (rows res) = 0) as H0 by (by rewrite Hnil).
    rewrite <- Hlen in H0. destruct (rows (results ro)); [|done].
    by apply elem_of_nil in Hrin.
Qed.

Ltac solve_elem :=
  apply list_elem_of_In; simpl; repeat (first [left; reflexivity | right]).

Ltac solve_no_clash :=
  let c := fresh "c" in
  let H1 := fresh "H" in
  let H2 := fresh "H" in
  intros c H1%list_elem_of_In H2%list_elem_of_In; simpl in H1, H2;
  repeat match goal with
         | H : _ ∨ _ |- _ => destruct H as [H|H]
         | H : False |- _ => destruct H
         end;
  subst; discriminate.

(** C1 on the registry of [a] and [b] and the fan-out table, whose three
    rows all have a registry row. *)
Lemma C1_join_failures_witness :
  let ro := {| results := {| columns := ["rfd_description"; "rfd_location"; "rfd_select_col"];
                             rows := map (prefixed_row "rfd" 1 "_") (rows fanout_results) |};
               prefix := "rfd" |} in
  ∃ p', run (return_poses ro) two_poses = (Ok tt, p')
        ∧ length (rows (df p')) = length (joined two_poses ro).
Proof.
  intros ro.
  refine (proj1 (proj2 (proj2 (proj2
            (C1_join_failures two_poses fanout_results "rfd" 1 "_"%char ro _ _ _ _ _)))) _ _).
  - solve_elem.
  - solve_elem.
  - discriminate.
  - vm_compute. reflexivity.
  - solve_no_clash.
  - discriminate.
  - repeat constructor.
    + exists (registry_row "in/a.pdb" "in/a.pdb" "a").
      split; [solve_elem | vm_compute; reflexivity].
    + exists (registry_row "in/a.pdb" "in/a.pdb" "a").
      split; [solve_elem | vm_compute; reflexivity].
    + exists (registry_row "in/b.pdb" "in/b.pdb" "b").
      split; [solve_elem | vm_compute; reflexivity].
Defined.

(** *** Claim C2 *)

(** C2, as stated, fails on the empty registry: no join key of the result
    table is a description of the registry, and yet [return_poses]
    concatenates, raises nothing and replaces the table. *)
Lemma C2_bootstrap_counterexample :
  let ro := {| results := {| columns := ["rfd_description"; "rfd_location"; "rfd_select_col"];
                             rows := map (prefixed_row "rfd" 0 "_") (rows partial_results) |};
               prefix := "rfd" |} in
  RunnerOutput_init partial_results "rfd" 0 "_" = Ok ro ∧
  (∀ l r, l ∈ rows (df no_poses) → r ∈ rows (results ro) → ¬ joins "rfd" l r) ∧
  fst (run (return_poses ro) no_poses) = Ok tt ∧
  snd (run (return_poses ro) no_poses) ≠ no_poses.
Proof.
  intros ro. split_and!.
  - vm_compute. reflexivity.
  - intros l r Hl. by apply elem_of_nil in Hl.
  - vm_compute. reflexivity.
  - intros H. apply (f_equal (λ p, length (rows (df p)))) in H.
    vm_compute in H. discriminate H.
Qed.

(** C2 (amended): whatever [return_poses] raises, the registry is what it
    was before the call; and on a registry with rows (its two columns
    present, no clash of column names) a validated result table whose join
    keys are no description of the registry raises the no-overlap error and
    leaves the registry unchanged. *)
Theorem C2_failed_merge_keeps_registry :
  (∀ ro p e p', run (return_poses ro) p = (Err e, p') → p' = p)
  ∧ (∀ p res prefix k sep ro,
       "poses" ∈ columns (df p) → "poses_description" ∈ columns (df p) →
       rows (df p) ≠ [] →
       RunnerOutput_init res prefix k sep = Ok ro →
       no_clash (df p) ro →
       (∀ l r, l ∈ rows (df p) → r ∈ rows (results ro) → ¬ joins prefix l r) →
       run (return_poses ro) p = (Err NoOverlap, p)).
Proof.
  split.
  - intros ro p e p'. rewrite return_poses_run.
    destruct (merger ro p ≫= _); intros [= ]; done.
  - intros p res prefix k sep ro Hp Hpd Hrows Hinit Hclash Hno.
    destruct (return_poses_join_run p res prefix k sep ro) as (cols & _ & ->); [done..|].
    destruct (RunnerOutput_init_columns _ _ _ _ _ Hinit) as (Hprefix & _).
    unfold joined, pd.join_pairs. rewrite Hprefix.
    by rewrite pairs_of_no_overlap.
Qed.

(** C2 on the registry of [a] and [b] and a result table that only has
    [c]. *)
Lemma C2_failed_merge_keeps_registry_witness :
  let res := mkDF ["description"; "location"] [result_row "c" "out/c.pdb"] in
  let ro := {| results := {| columns := ["rfd_description"; "rfd_location"; "rfd_select_col"];
                             rows := map (prefixed_row "rfd" 0 "_") (rows res) |};
               prefix := "rfd" |} in
  run (return_poses ro) two_poses = (Err NoOverlap, two_poses).
Proof.
  intros res ro.
  apply (proj2 C2_failed_merge_keeps_registry two_poses res "rfd"%string 0%Z "_"%char ro).
  - solve_elem.
  - solve_elem.
  - discriminate.
  - vm_compute. reflexivity.
  - solve_no_clash.
  - intros l r Hl%list_elem_of_In Hr%list_elem_of_In. simpl in Hl, Hr.
    destruct Hr as [<-|[]]. destruct Hl as [<-|[<-|[]]]; vm_compute; discriminate.
Defined.


(** *** Claim C8 *)

(** C8, as stated, fails on a result table without rows: the concatenation
    with the empty registry has no row, and the check after the merger
    raises the no-overlap error. *)
Lemma C8_empty_results_counterexample :
  let ro := {| results := {| columns := ["rfd_description"; "rfd_location"; "rfd_select_col"];
                             rows := [] |};
               prefix := "rfd" |} in
  RunnerOutput_init empty_results "rfd" 0 "_" = Ok ro ∧
  rows (df no_poses) = [] ∧
  run (return_poses ro) no_poses = (Err NoOverlap, no_poses).
Proof. intros ro. split_and!; vm_compute; reflexivity. Qed.

(** C8 (amended): on a registry without rows, [return_poses] of a validated
    result table that has at least one row raises nothing; the new registry
    has as many rows as the result table, its [poses] column is the
    [<prefix>_location] column of the prefixed results (the [location]
    column of the raw table) and its [poses_description] column is their
    [<prefix>_description] column (the raw [description] column). *)
Theorem C8_bootstrap_concatenates p res prefix k sep ro :
  "poses" ∈ columns (df p) → rows (df p) = [] →
  RunnerOutput_init res prefix k sep = Ok ro →
  rows res ≠ [] →
  ∃ p', run (return_poses ro) p = (Ok tt, p') ∧
        length (rows (df p')) = length (rows res) ∧
        pd.getitem (df p') "poses" = pd.getitem (results ro) (prefix +:+ "_location") ∧
        pd.getitem (df p') "poses_description"
          = pd.getitem (results ro) (prefix +:+ "_description") ∧
        pd.getitem (df p') "poses" = pd.getitem res "location" ∧
        pd.getitem (df p') "poses_description" = pd.getitem res "description".
Proof.
  intros Hp Hrows Hinit Hres.
  destruct (return_poses_bootstrap_run p res prefix k sep ro) as (cols & Hcols & ->);
    [done..|].
  destruct (RunnerOutput_init_columns _ _ _ _ _ Hinit) as (_ & Hr & _ & HL & HD).
  pose proof Hinit as [(Hd & Hl & _) _]%RunnerOutput_init_Ok.
  rewrite bool_decide_false
    by (destruct (rows res); [done | simpl; lia]).
  eexists. split; [done|]. simpl.
  rewrite (getitem_Ok (results ro) _ HL), (getitem_Ok (results ro) _ HD).
  rewrite (getitem_Ok res _ Hl), (getitem_Ok res _ Hd).
  rewrite !getitem_Ok by (simpl; apply Hcols; auto). simpl.
  rewrite !map_map, Hr, !map_map, length_map.
  split; [done|].
  split_and!; f_equal; apply map_ext; intros r;
    rewrite ?reset_row_poses, ?reset_row_description, ?prefixed_row_lookup; done.
Qed.

(** C8 on the empty registry and the fan-out table. *)
Lemma C8_bootstrap_concatenates_witness :
  let ro := {| results := {| columns := ["rfd_description"; "rfd_location"; "rfd_select_col"];
                             rows := map (prefixed_row "rfd" 1 "_") (rows fanout_results) |};
               prefix := "rfd" |} in
  ∃ p', run (return_poses ro) no_poses = (Ok tt, p') ∧
        length (rows (df p')) = length (rows fanout_results) ∧
        pd.getitem (df p') "poses" = pd.getitem (results ro) "rfd_location" ∧
        pd.getitem (df p') "poses_description" = pd.getitem (results ro) "rfd_description" ∧
        pd.getitem (df p') "poses" = pd.getitem fanout_results "location" ∧
        pd.getitem (df p') "poses_description" = pd.getitem fanout_results "description".
Proof.
  intros ro.
  apply (C8_bootstrap_concatenates no_poses fanout_results "rfd" 1 "_"%char ro).
  - solve_elem.
  - reflexivity.
  - vm_compute. reflexivity.
  - discriminate.
Defined.

(** ** Distinct descriptions (claim C6) *)

Lemma rows_within_results res prefix k sep ro :
  RunnerOutput_init res prefix k sep = Ok ro →
  rows_within res → rows_within (results ro).
Proof.
  intros [_ ->]%RunnerOutput_init_Ok Hres r c. simpl.
  intros (r0 & -> & Hr0)%list_elem_of_fmap Hc.
  unfold prefixed_row in Hc.
  apply (lookup_kmap_is_Some (String.append (prefix +:+ "_"))) in Hc as (i & -> & Hi).
  apply list_elem_of_fmap_2.
  rewrite lookup_set_cell in Hi. case_decide as Heq.
  - subst i. destruct (pd.has_col res "select_col") eqn:Hs.
    + by apply has_col_true.
    + apply elem_of_app. right. by apply list_elem_of_singleton.
  - assert (i ∈ columns res) by (by eapply Hres).
    destruct (pd.has_col res "select_col"); [done|]. apply elem_of_app. by left.
Qed.

Lemma results_description_column res prefix k sep ro :
  RunnerOutput_init res prefix k sep = Ok ro →
  map (λ r : gmap string string, r !! (prefix +:+ "_description")) (rows (results ro))
  = map (λ r : gmap string string, r !! "description") (rows res).
Proof.
  intros [_ ->]%RunnerOutput_init_Ok. simpl. rewrite map_map.
  apply map_ext. intros r. by rewrite prefixed_row_lookup.
Qed.

Lemma NoDup_map_inj {A B} (g : A → B) (l : list A) x y :
  NoDup (map g l) → x ∈ l → y ∈ l → g x = g y → x = y.
Proof.
  induction l as [|a l IH]; simpl; intros Hnd Hx Hy Hg; [by apply elem_of_nil in Hx|].
  apply NoDup_cons in Hnd as [Ha Hnd].
  apply elem_of_cons in Hx as [->|Hx]; apply elem_of_cons in Hy as [->|Hy].
  - done.
  - exfalso. apply Ha. rewrite Hg. by apply (list_elem_of_fmap_2 g).
  - exfalso. apply Ha. rewrite <- Hg. by apply (list_elem_of_fmap_2 g).
  - by apply IH.
Qed.

(** The right rows of a join with distinct keys on the left are distinct
    under any function that tells the right rows apart. *)
Lemma join_rows_right_NoDup {B} (left_on right_on : string) (g : gmap string string → B)
    (L R : list (gmap string string)) :
  NoDup (map (λ l : gmap string string, l !! left_on) L) →
  NoDup (map g R) →
  NoDup (map (λ lr : gmap string string * gmap string string, g lr.2)
             (pd.join_rows left_on right_on L R)).
Proof.
  intros HL HR. induction L as [|l L IH]; [constructor|].
  simpl in HL. apply NoDup_cons in HL as [Hl HL].
  rewrite pairs_of_cons_l, map_app. apply NoDup_app. split_and!.
  - assert (map (λ lr : gmap string string * gmap string string, g lr.2)
              (R ≫= λ r : gmap string string,
                 if decide (l !! left_on = r !! right_on) then [(l, r)] else [])
            = map g (filter (λ r : gmap string string, l !! left_on = r !! right_on) R))
      as ->.
    { clear. induction R as [|r R IH]; [done|].
      rewrite bind_cons, map_app, IH, filter_cons. by case_decide. }
    eapply sublist_NoDup; [exact HR|].
    apply (fmap_sublist g). apply sublist_filter.
  - intros x Hx Hx'.
    apply list_elem_of_fmap in Hx as ([l1 r1] & -> & Hin1).
    apply list_elem_of_fmap in Hx' as ([l2 r2] & Heq & Hin2). simpl in Heq.
    assert ((l1, r1) ∈ pd.join_rows left_on right_on [l] R) as Hin1'.
    { unfold pd.join_rows. by rewrite bind_singleton. }
    apply pairs_of_elem in Hin1' as (Hl1 & Hr1 & Hk1).
    apply list_elem_of_singleton in Hl1 as ->.
    apply pairs_of_elem in Hin2 as (Hl2 & Hr2 & Hk2).
    assert (r1 = r2) as -> by (by eapply (NoDup_map_inj g R)).
    apply Hl. rewrite Hk1, <- Hk2.
    by apply (list_elem_of_fmap_2 (λ l0 : gmap string string, l0 !! left_on)).
  - by apply IH.
Qed.

Lemma rows_within_reset prefix (cols : list string) (m : DataFrame) :
  rows_within m →
  (∀ c, c ∈ cols ↔
        (c ∈ columns m ∧ c ≠ prefix +:+ "_select_col")
        ∨ c = "poses"%string ∨ c = "poses_description"%string) →
  rows_within {| columns := cols; rows := map (reset_row prefix) (rows m) |}.
Proof.
  intros Hm Hcols r c. simpl. intros (r0 & -> & Hr0)%list_elem_of_fmap Hc.
  apply Hcols.
  destruct (decide (c = "poses"%string)) as [->|H1]; [auto|].
  destruct (decide (c = "poses_description"%string)) as [->|H2]; [auto|].
  left. rewrite reset_row_other in Hc by done.
  apply lookup_delete_is_Some in Hc as [Hne Hc]. split; [by eapply Hm | done].
Qed.

(** [return_poses] keeps the invariant, whether it returns or raises. *)
Lemma return_poses_invariant p p' res prefix k sep ro outcome :
  registry_invariant p →
  RunnerOutput_init res prefix k sep = Ok ro →
  rows_within res →
  NoDup (map (λ r : gmap string string, r !! "description") (rows res)) →
  no_clash (df p) ro →
  run (return_poses ro) p = (outcome, p') →
  registry_invariant p'.
Proof.
  intros (Hp & Hwithin & Hpd & Hnodup) Hinit Hres Hdistinct Hclash Hrun.
  pose proof (rows_within_results _ _ _ _ _ Hinit Hres) as Hwithin_ro.
  pose proof (results_description_column _ _ _ _ _ Hinit) as Hdesc.
  destruct (RunnerOutput_init_columns _ _ _ _ _ Hinit) as (Hprefix & Hr & HS & HL & HD).
  destruct (rows (df p)) as [|l0 ls] eqn:Hrows.
  - destruct (return_poses_bootstrap_run p res prefix k sep ro) as (cols & Hcols & Hrun');
      [done..|].
    rewrite Hrun' in Hrun. case_bool_decide.
    + injection Hrun as _ <-. repeat split; try done. by rewrite Hrows.
    + injection Hrun as _ <-.
      unfold registry_invariant, distinct_descriptions. split_and!; simpl.
      * apply Hcols. auto.
      * apply (rows_within_reset prefix cols
                 {| columns := columns (df p) ++ columns (results ro);
                    rows := rows (results ro) |}).
        -- intros r c Hr' Hc. simpl in *. apply elem_of_app. right. by eapply Hwithin_ro.
        -- intros c. rewrite Hcols. simpl. by rewrite elem_of_app.
      * apply Hcols. auto.
      * rewrite map_map.
        rewrite (map_ext _ (λ r : gmap string string, r !! (prefix +:+ "_description")))
          by (intros; apply reset_row_description).
        by rewrite Hdesc.
  - destruct (return_poses_join_run p res prefix k sep ro) as (cols & Hcols & Hrun');
      [done| done | by rewrite Hrows | done..|].
    rewrite Hrun' in Hrun.
    assert (registry_invariant p) as Hinv.
    { repeat split; try done. by rewrite Hrows. }
    case_bool_decide; [by injection Hrun as _ <-|].
    case_bool_decide; [by injection Hrun as _ <-|].
    injection Hrun as _ <-.
      unfold registry_invariant, distinct_descriptions. split_and!; simpl.
    + apply Hcols. auto.
    + rewrite <- (map_map (λ lr : gmap string string * gmap string string, lr.1 ∪ lr.2)
                    (reset_row prefix)).
      apply (rows_within_reset prefix cols
               {| columns := columns (df p) ++ columns (results ro);
                  rows := map (λ lr : gmap string string * gmap string string,
                                 lr.1 ∪ lr.2) (joined p ro) |}).
      * intros r c. simpl. intros ([l r'] & -> & Hin)%list_elem_of_fmap Hc.
        unfold joined, pd.join_pairs in Hin.
        apply pairs_of_elem in Hin as (Hl & Hr' & _).
        apply lookup_union_is_Some in Hc as [Hc|Hc]; apply elem_of_app.
        -- left. by eapply Hwithin.
        -- right. by eapply Hwithin_ro.
      * intros c. rewrite Hcols. simpl. by rewrite elem_of_app.
    + apply Hcols. auto.
    + rewrite map_map.
      rewrite (map_ext_in _ (λ lr : gmap string string * gmap string string,
                               lr.2 !! (prefix +:+ "_description"))).
      * unfold joined, pd.join_pairs.
        apply (join_rows_right_NoDup "poses_description" _
                 (λ r : gmap string string, r !! (prefix +:+ "_description"))).
        -- by rewrite Hrows.
        -- by rewrite Hdesc.
      * intros [l r] Hin%list_elem_of_In. simpl.
        unfold joined, pd.join_pairs in Hin.
        apply pairs_of_elem in Hin as (Hl & Hr' & _).
        rewrite reset_row_description. apply lookup_union_r.
        destruct (l !! (prefix +:+ "_description")) eqn:Hlook; [|done].
        exfalso. apply (Hclash (prefix +:+ "_description")); [|done].
        eapply Hwithin; [exact Hl | by rewrite Hlook].
Qed.

(** *** Creation *)

Lemma poses_frame_descriptions paths :
  map (λ r : gmap string string, r !! "poses_description") (rows (poses_frame paths))
  = map Some (parse_descriptions paths).
Proof.
  unfold poses_frame, parse_descriptions. simpl.
  induction paths as [|x paths IH]; simpl; [done|]. by rewrite IH.
Qed.

Lemma poses_frame_invariant paths :
  NoDup (parse_descriptions paths) →
  registry_invariant (mkPoses (poses_frame paths)).
Proof.
  intros Hnodup. unfold registry_invariant, distinct_descriptions. split_and!.
  - solve_elem.
  - intros r c. simpl. intros ([x y] & -> & _)%list_elem_of_fmap Hc. simpl in Hc.
    apply lookup_insert_is_Some' in Hc as [<-|Hc]; [solve_elem|].
    apply lookup_insert_is_Some' in Hc as [<-|Hc]; [solve_elem|].
    apply lookup_insert_is_Some' in Hc as [<-|Hc]; [solve_elem|].
    rewrite lookup_empty in Hc. by destruct Hc.
  - solve_elem.
  - cbn [df]. rewrite poses_frame_descriptions.
    apply (NoDup_fmap_2 Some). exact Hnodup.
Qed.

Lemma check_poses_df_integrity_Ok d d' :
  check_poses_df_integrity d = Ok d' →
  d' = d ∧ "poses" ∈ columns d ∧ "poses_description" ∈ columns d.
Proof.
  unfold check_poses_df_integrity. rewrite !filter_cons, filter_nil.
  destruct (decide ("input_poses" ∉ columns d)); [done|].
  destruct (decide ("poses" ∉ columns d)) as [|H1]; [done|].
  destruct (decide ("poses_description" ∉ columns d)) as [|H2]; [done|].
  intros [= <-]. split_and!; [done|..].
  - by destruct (decide ("poses" ∈ columns d)).
  - by destruct (decide ("poses_description" ∈ columns d)).
Qed.

Lemma set_poses_frame_run d glob_suffix w w' :
  run (set_poses (InFrame d) glob_suffix) w = (Ok tt, w') →
  self w' = mkPoses d ∧ "poses" ∈ columns d ∧ "poses_description" ∈ columns d.
Proof.
  unfold set_poses. simpl.
  destruct (check_poses_df_integrity d) as [d'|e] eqn:Hcheck; simpl; [|done].
  apply check_poses_df_integrity_Ok in Hcheck as (-> & H1 & H2).
  intros [= <-]. done.
Qed.

(** *** Relocation *)

Lemma keeps_self_bind {A B} (m : M World A) (f : A → M World B) :
  keeps_self m → (∀ a, keeps_self (f a)) → keeps_self (bind m f).
Proof.
  intros Hm Hf w outcome w'. simpl.
  destruct (run m w) as [[a|e] w1] eqn:Hrun.
  - intros Hfa. rewrite (Hf a _ _ _ Hfa). by eapply Hm.
  - intros [= <- <-]. by eapply Hm.
Qed.

Lemma keeps_self_ret {A} (a : A) : keeps_self (ret a).
Proof. by intros w outcome w' [= <- <-]. Qed.

Lemma keeps_self_raise {A} e : keeps_self (raise (A := A) e).
Proof. by intros w outcome w' [= <- <-]. Qed.

Lemma keeps_self_raise_if cond e : keeps_self (raise_if cond e).
Proof. destruct cond; [apply keeps_self_raise | apply keeps_self_ret]. Qed.

Lemma keeps_self_isfile path : keeps_self (isfile path).
Proof. by intros w outcome w' [= <- <-]. Qed.

Lemma keeps_self_isdir path : keeps_self (isdir path).
Proof. by intros w outcome w' [= <- <-]. Qed.

Lemma keeps_self_all_isfile l : keeps_self (all_isfile l).
Proof. by intros w outcome w' [= <- <-]. Qed.

Lemma keeps_self_makedirs path : keeps_self (makedirs path).
Proof. by intros w outcome w' [= <- <-]. Qed.

Lemma keeps_self_shutil_copy src dst : keeps_self (shutil_copy src dst).
Proof.
  intros w outcome w'. simpl.
  destruct (negb _); [by intros [= <- <-]|].
  destruct (bool_decide _); by intros [= <- <-].
Qed.

Lemma keeps_self_for_each {A} (l : list A) (body : A → M World unit) :
  (∀ x, keeps_self (body x)) → keeps_self (for_each l body).
Proof.
  intros Hbody. induction l as [|x l IH]; [apply keeps_self_ret|].
  apply keeps_self_bind; [apply Hbody | intros _; exact IH].
Qed.

Lemma mapM_result_length {A B} (f : A → result B) (l : list A) (k : list B) :
  mapM f l = Ok k → length k = length l.
Proof.
  revert k. induction l as [|x l IH]; intros k; simpl; [by intros [= <-]|].
  destruct (f x) as [y|e]; simpl; [|done].
  destruct (mapM f l) as [k'|e]; simpl; [|done].
  intros [= <-]. simpl. by rewrite (IH k').
Qed.

(** [change_poses_dir] either leaves the table as it is or gives one value
    to the [poses] cell of every row. *)
Lemma change_poses_dir_self poses_dir copy overwrite w outcome w' :
  run (change_poses_dir poses_dir copy overwrite) w = (outcome, w') →
  self w' = self w ∨
  ∃ new_poses : list string,
    length new_poses = length (rows (df (self w))) ∧
    self w' = mkPoses (pd.setitem (df (self w)) "poses" (map Some new_poses)).
Proof.
  unfold change_poses_dir.
  set (block := λ old_poses new_poses : list string,
    if negb copy then
      let* d := isdir poses_dir in
      do raise_if (negb d) (ValueError ":work_dir: has to be existing directory!") then
      let* ok := all_isfile new_poses in
      raise_if (negb ok) (ValueError "Poses do not exist at specified directory.")
    else
      let* d := isdir poses_dir in
      do (if negb d then makedirs poses_dir else ret tt) then
      if overwrite then
        for_each (zip old_poses new_poses) (λ on, shutil_copy on.1 on.2)
      else
        for_each (zip old_poses new_poses) (λ on,
          let* present := isfile on.2 in
          if negb present then shutil_copy on.1 on.2 else ret tt)).
  assert (∀ old_poses new_poses, keeps_self (block old_poses new_poses)) as Hblock.
  { intros old_poses new_poses. unfold block. destruct copy; simpl.
    - apply keeps_self_bind; [apply keeps_self_isdir|]. intros d.
      apply keeps_self_bind.
      { destruct (negb d); [apply keeps_self_makedirs | apply keeps_self_ret]. }
      intros _. destruct overwrite; apply keeps_self_for_each; intros on.
      + apply keeps_self_shutil_copy.
      + apply keeps_self_bind; [apply keeps_self_isfile|]. intros present.
        destruct (negb present); [apply keeps_self_shutil_copy | apply keeps_self_ret].
    - apply keeps_self_bind; [apply keeps_self_isdir|]. intros d.
      apply keeps_self_bind; [apply keeps_self_raise_if|]. intros _.
      apply keeps_self_bind; [apply keeps_self_all_isfile|]. intros ok.
      apply keeps_self_raise_if. }
  intros Hrun.
  change (run (let* w0 := get in
               let* old_poses := lift (poses_list (self w0)) in
               let* old_poses := lift (mapM str_of_cell old_poses) in
               do block old_poses
                    (map (λ pose, os_path_join poses_dir (last_item (rsplit1 slash pose)))
                         old_poses) then
               let* w1 := get in
               assign_df (pd.setitem (df (self w1)) "poses"
                            (map Some
                               (map (λ pose, os_path_join poses_dir
                                               (last_item (rsplit1 slash pose)))
                                    old_poses)))) w = (outcome, w')) in Hrun.
  revert Hrun. simpl.
  destruct (poses_list (self w)) as [cells|e] eqn:Hcells; simpl;
    [|intros [= <- <-]; by left].
  destruct (mapM str_of_cell cells) as [old_poses|e] eqn:Hold; simpl;
    [|intros [= <- <-]; by left].
  destruct (run (block old_poses _) w) as [[[]|e] w1] eqn:Hrun.
  - simpl. intros [= <- <-]. right.
    pose proof (Hblock _ _ _ _ _ Hrun) as Hself.
    eexists. split; [|simpl; rewrite Hself; reflexivity].
    rewrite length_map, (mapM_result_length _ _ _ Hold).
    apply getitem_inv in Hcells as [_ ->]. by rewrite length_map.
  - intros [= <- <-]. left. by eapply Hblock.
Qed.

Lemma setitem_poses_invariant d (new_poses : list string) :
  registry_invariant (mkPoses d) →
  length new_poses = length (rows d) →
  registry_invariant (mkPoses (pd.setitem d "poses" (map Some new_poses))).
Proof.
  intros (Hp & Hwithin & Hpd & Hnodup) Hlen. cbn [df] in *.
  unfold registry_invariant, distinct_descriptions. cbn [df]. split_and!.
  - apply setitem_columns. by right.
  - intros r c Hr Hc. apply setitem_columns.
    unfold pd.setitem in Hr. cbn [rows] in Hr.
    apply elem_of_zip_with in Hr as (r0 & v & -> & Hr0 & _).
    rewrite lookup_set_cell in Hc. case_decide; [by right|].
    left. by eapply Hwithin.
  - apply setitem_columns. by left.
  - unfold pd.setitem. cbn [rows].
    assert (map (λ r : gmap string string, r !! "poses_description")
              (zip_with (pd.set_cell "poses") (rows d) (map Some new_poses))
            = map (λ r : gmap string string, r !! "poses_description") (rows d)) as ->;
      [|done].
    clear -Hlen. revert new_poses Hlen.
    induction (rows d) as [|r rs IH]; intros [|v vs] Hlen; simpl in *; try done.
    rewrite lookup_insert_ne by done. f_equal. apply IH. lia.
Qed.

(** Every registry reached from distinct inputs satisfies the invariant. *)
Lemma reachable_invariant p : reachable p → registry_invariant p.
Proof.
  induction 1 as [w w' input gs paths Hrun Hdf Hnodup
                 |w w' d gs Hrun Hwithin Hnodup
                 |p p' res prefix k sep ro outcome Hreach IH Hinit Hres Hnodup Hclash Hrun
                 |w w' poses_dir copy overwrite outcome Hreach IH Hrun].
  - destruct (self w') as [d]. simpl in Hdf. subst d.
    by apply poses_frame_invariant.
  - apply set_poses_frame_run in Hrun as (-> & Hp & Hpd).
    unfold registry_invariant, distinct_descriptions. by split_and!.
  - by eapply return_poses_invariant.
  - apply change_poses_dir_self in Hrun as [->|(new_poses & Hlen & ->)]; [done|].
    apply setitem_poses_invariant; [|done]. by destruct (self w).
Qed.

(** C6, as stated, fails at creation: [set_poses] on two existing files of
    the same name in two directories gives two rows with the description
    [x]. *)
Lemma C6_same_stem_counterexample :
  let w := {| self := no_poses; files := {["a/x.pdb"; "b/x.pdb"]}%string; dirs := ∅;
              glob := λ _, []; split_fasta := λ l, Ok l |} in
  fst (run (set_poses (InList ["a/x.pdb"; "b/x.pdb"]%string) None) w) = Ok tt ∧
  pd.getitem (df (self (snd (run (set_poses (InList ["a/x.pdb"; "b/x.pdb"]%string) None) w))))
             "poses_description"
    = Ok [Some "x"; Some "x"]%string ∧
  ¬ distinct_descriptions
      (df (self (snd (run (set_poses (InList ["a/x.pdb"; "b/x.pdb"]%string) None) w)))).
Proof.
  intros w. split_and!; [vm_compute; reflexivity..|].
  intros [_ Hnodup]. vm_compute in Hnodup.
  apply NoDup_cons in Hnodup as [Hnotin _]. apply Hnotin. left.
Qed.

(** C6 (amended): the code never checks that descriptions are unique; it
    keeps them unique.  In every registry state reached by [set_poses] from
    paths whose parsed descriptions are pairwise distinct (or from a loaded
    table whose descriptions are), and then by calls of [return_poses] on
    result tables with pairwise distinct descriptions and columns new to the
    registry and by calls of [change_poses_dir], returning or raising, the
    values of [poses_description] are pairwise distinct. *)
Theorem C6_distinct_descriptions_preserved p :
  reachable p → distinct_descriptions (df p).
Proof. intros Hreach. by apply reachable_invariant in Hreach as (_ & _ & ?). Qed.

Lemma result_rows_within (rs : list (gmap string string)) :
  Forall (λ r, ∃ d l, r = result_row d l) rs →
  rows_within (mkDF ["description"; "location"] rs).
Proof.
  intros Hrs r c Hr Hc. simpl in *.
  destruct (proj1 (Forall_forall _ _) Hrs r Hr) as (d & l & Heq). subst r.
  unfold result_row in Hc.
  apply lookup_insert_is_Some' in Hc as [<-|Hc]; [solve_elem|].
  apply lookup_insert_is_Some' in Hc as [<-|Hc]; [solve_elem|].
  rewrite lookup_empty in Hc. by destruct Hc.
Qed.

(** C6 on the registry of [a] and [b] after the merge of the fan-out
    table. *)
Lemma C6_distinct_descriptions_preserved_witness :
  let ro := {| results := {| columns := ["rfd_description"; "rfd_location"; "rfd_select_col"];
                             rows := map (prefixed_row "rfd" 1 "_") (rows fanout_results) |};
               prefix := "rfd" |} in
  distinct_descriptions (df (snd (run (return_poses ro) two_poses))).
Proof.
  intros ro. apply C6_distinct_descriptions_preserved.
  apply (reach_return_poses two_poses _ fanout_results "rfd" 1 "_"%char ro
           (fst (run (return_poses ro) two_poses))).
  - apply (reach_set_poses_paths (two_files no_poses) (two_files two_poses)
             (InList ["in/a.pdb"; "in/b.pdb"]%string) None
             ["in/a.pdb"; "in/b.pdb"]%string).
    + vm_compute. reflexivity.
    + reflexivity.
    + apply (bool_decide_unpack _). vm_compute. reflexivity.
  - vm_compute. reflexivity.
  - apply result_rows_within. repeat constructor; eexists _, _; reflexivity.
  - apply (bool_decide_unpack _). vm_compute. reflexivity.
  - solve_no_clash.
  - by destruct (run (return_poses ro) two_poses).
Defined.
